(** * ListenBrainz submission plugin (modules/misc/listenbrainz.c)

    A shallow embedding of the listen-capture callbacks, the payload and
    request builders, the request sender and the submission thread, followed
    by the properties of them that the specification states.

    Conventions of the embedding:
    - a [char *] that may be [NULL] is an [option string];
    - [time_t], [vlc_tick_t] and [int] values are integers in [Z], with the
      conversions of the C code written out;
    - the queue ([vlc_vector_listen_t]) is a [list listen_t], oldest first;
    - a byte buffer is a [list byte];
    - whatever the code obtains from outside (the wall clock, the monotonic
      clock, the player, the TLS socket, the memory stream) is an argument of
      the function that asks for it. *)

From Stdlib Require Import ZArith List String Ascii Bool Lia.
From Stdlib Require Import Strings.Byte.
From Stdlib Require Import DecimalString.
From Stdlib Require DecimalN DecimalFacts.
Import ListNotations.

Local Open Scope Z_scope.
Local Open Scope list_scope.

(** ** Integer conversions and clock macros *)

(** Conversion of an integer to [int] (32 bits, two's complement). *)
Definition to_int (z : Z) : Z :=
  (z + 2 ^ 31) mod 2 ^ 32 - 2 ^ 31.

(** Conversion of an integer to [uint64_t]. *)
Definition to_uint64 (z : Z) : Z := z mod 2 ^ 64.

(** [CLOCK_FREQ] of vlc_tick.h: ticks are microseconds. *)
Definition CLOCK_FREQ : Z := 1000000.

(** [VLC_TICK_0] of vlc_tick.h. *)
Definition VLC_TICK_0 : Z := 1.

(** [SEC_FROM_VLC_TICK(vtk)] is [(vtk) / CLOCK_FREQ], a C division. *)
Definition SEC_FROM_VLC_TICK (vtk : Z) : Z := Z.quot vtk CLOCK_FREQ.

(** [VLC_TICK_FROM_SEC(sec)] is [CLOCK_FREQ * (sec)]. *)
Definition VLC_TICK_FROM_SEC (sec : Z) : Z := CLOCK_FREQ * sec.

(** ** C strings in byte buffers *)

Module CStr.

Definition NUL : byte := x00.
Definition LF : byte := x0a.

(** [buf[i] = b]; a store past the end of the buffer is left out of the
    model (the callers below only store inside it). *)
Fixpoint store (buf : list byte) (i : nat) (b : byte) : list byte :=
  match buf, i with
  | [], _ => []
  | _ :: tl, O => b :: tl
  | hd :: tl, S i' => hd :: store tl i' b
  end.

(** [strchr(buf, c)] for [c] other than NUL: the offset of the first [c] of
    the C string, [None] for the null pointer. *)
Fixpoint strchr (buf : list byte) (c : byte) : option nat :=
  match buf with
  | [] => None
  | b :: tl =>
      if Byte.eqb b c then Some O
      else if Byte.eqb b NUL then None
      else option_map S (strchr tl c)
  end.

(** Does the C string at the beginning of [buf] start with [needle]
    ([needle] holds no NUL)? *)
Fixpoint starts_with (needle buf : list byte) : bool :=
  match needle, buf with
  | [], _ => true
  | _ :: _, [] => false
  | n :: ns, b :: tl => Byte.eqb b n && negb (Byte.eqb b NUL) && starts_with ns tl
  end.

(** [strstr(buf, needle)]: the offset of the first occurrence of [needle]
    in the C string, [None] for the null pointer. *)
Fixpoint strstr (buf needle : list byte) {struct buf} : option nat :=
  if starts_with needle buf then Some O
  else match buf with
       | [] => None
       | b :: tl =>
           if Byte.eqb b NUL then None else option_map S (strstr tl needle)
       end.

(** [l] holds [needle] as a contiguous run of bytes. *)
Definition contains (needle l : list byte) : Prop :=
  exists pre post, l = pre ++ needle ++ post.

End CStr.

(** ** JSON syntax (RFC 8259)

    A reader of JSON texts, used to say what a syntactically valid payload
    is.  It is not part of the plugin. *)

Module Json.

Local Open Scope char_scope.

(** The double quote character. *)
Definition DQ : ascii := "034".
(** The backslash character. *)
Definition BS : ascii := "092".

#[local] Unset Elimination Schemes.
Inductive value :=
| Null
| Bool (b : bool)
| Number (text : string)
| Str (text : string)
| Array (elements : list value)
| Object (members : list (string * value)).
#[local] Set Elimination Schemes.

(** The outcome of reading a prefix of a text. *)
Inductive result (A : Type) :=
| Parsed (a : A) (rest : list ascii)
| SyntaxError
| OutOfFuel.
Arguments Parsed {A} a rest.
Arguments SyntaxError {A}.
Arguments OutOfFuel {A}.

Definition is_ws (c : ascii) : bool :=
  Ascii.eqb c " " || Ascii.eqb c "009" || Ascii.eqb c "010"
  || Ascii.eqb c "013".

Definition is_digit (c : ascii) : bool :=
  (48 <=? nat_of_ascii c)%nat && (nat_of_ascii c <=? 57)%nat.

Definition is_hex (c : ascii) : bool :=
  is_digit c
  || ((65 <=? nat_of_ascii c)%nat && (nat_of_ascii c <=? 70)%nat)
  || ((97 <=? nat_of_ascii c)%nat && (nat_of_ascii c <=? 102)%nat).

(** The characters that may follow a backslash, [u] apart. *)
Definition is_escape (c : ascii) : bool :=
  Ascii.eqb c DQ || Ascii.eqb c BS || Ascii.eqb c "/" || Ascii.eqb c "b"
  || Ascii.eqb c "f" || Ascii.eqb c "n" || Ascii.eqb c "r"
  || Ascii.eqb c "t".

Fixpoint skip_ws (s : list ascii) : list ascii :=
  match s with
  | c :: tl => if is_ws c then skip_ws tl else s
  | [] => []
  end.

(** The longest run of digits at the head of [s], and what follows. *)
Fixpoint digits (s : list ascii) : list ascii * list ascii :=
  match s with
  | c :: tl =>
      if is_digit c then let (ds, r) := digits tl in (c :: ds, r)
      else ([], s)
  | [] => ([], [])
  end.

(** The characters of a string after its opening quote, up to the closing
    quote; escapes are checked and kept as they are written. *)
Fixpoint string_body (s : list ascii) (acc : list ascii)
  : result string :=
  match s with
  | [] => SyntaxError
  | c :: tl =>
      if Ascii.eqb c DQ then Parsed (string_of_list_ascii (rev acc)) tl
      else if Ascii.eqb c BS then
        match tl with
        | [] => SyntaxError
        | e :: tl1 =>
            if is_escape e then string_body tl1 (e :: c :: acc)
            else if Ascii.eqb e "u" then
              match tl1 with
              | h1 :: h2 :: h3 :: h4 :: tl2 =>
                  if is_hex h1 && is_hex h2 && is_hex h3 && is_hex h4
                  then string_body tl2
                         (h4 :: h3 :: h2 :: h1 :: e :: c :: acc)
                  else SyntaxError
              | _ => SyntaxError
              end
            else SyntaxError
        end
      else if (nat_of_ascii c <? 32)%nat then SyntaxError
      else string_body tl (c :: acc)
  end.

(** [exp] of the grammar of numbers, optional. *)
Definition exponent (acc : list ascii) (s : list ascii)
  : result string :=
  match s with
  | c :: tl =>
      if Ascii.eqb c "e" || Ascii.eqb c "E" then
        let (sign, tl1) :=
          match tl with
          | d :: r =>
              if Ascii.eqb d "+" || Ascii.eqb d "-" then ([d], r)
              else ([], tl)
          | [] => ([], tl)
          end in
        match digits tl1 with
        | ([], _) => SyntaxError
        | (ds, r) =>
            Parsed (string_of_list_ascii (acc ++ c :: sign ++ ds)) r
        end
      else Parsed (string_of_list_ascii acc) s
  | [] => Parsed (string_of_list_ascii acc) s
  end.

(** [frac] of the grammar of numbers, optional, and then [exp]. *)
Definition fraction (acc : list ascii) (s : list ascii)
  : result string :=
  match s with
  | c :: tl =>
      if Ascii.eqb c "." then
        match digits tl with
        | ([], _) => SyntaxError
        | (ds, r) => exponent (acc ++ c :: ds) r
        end
      else exponent acc s
  | [] => exponent acc s
  end.

Definition number (s : list ascii) : result string :=
  let (minus, s1) :=
    match s with
    | c :: tl => if Ascii.eqb c "-" then ([c], tl) else ([], s)
    | [] => ([], s)
    end in
  match s1 with
  | c :: tl =>
      if Ascii.eqb c "0" then fraction (minus ++ [c]) tl
      else if is_digit c then
        let (ds, r) := digits tl in fraction (minus ++ c :: ds) r
      else SyntaxError
  | [] => SyntaxError
  end.

(** Does [s] start with the characters of [word]?  Then what follows. *)
Fixpoint literal (word : list ascii) (s : list ascii)
  : option (list ascii) :=
  match word, s with
  | [], _ => Some s
  | w :: ws, c :: tl => if Ascii.eqb w c then literal ws tl else None
  | _ :: _, [] => None
  end.

Fixpoint parse_value (fuel : nat) (s : list ascii) : result value :=
  match fuel with
  | O => OutOfFuel
  | S fuel1 =>
      match skip_ws s with
      | [] => SyntaxError
      | c :: tl =>
          if Ascii.eqb c "{" then
            match skip_ws tl with
            | "}" :: r => Parsed (Object []) r
            | _ => parse_members fuel1 tl []
            end
          else if Ascii.eqb c "[" then
            match skip_ws tl with
            | "]" :: r => Parsed (Array []) r
            | _ => parse_elements fuel1 tl []
            end
          else if Ascii.eqb c DQ then
            match string_body tl [] with
            | Parsed str r => Parsed (Str str) r
            | SyntaxError => SyntaxError
            | OutOfFuel => OutOfFuel
            end
          else if Ascii.eqb c "-" || is_digit c then
            match number (c :: tl) with
            | Parsed n r => Parsed (Number n) r
            | SyntaxError => SyntaxError
            | OutOfFuel => OutOfFuel
            end
          else
            match literal (list_ascii_of_string "true") (c :: tl) with
            | Some r => Parsed (Bool true) r
            | None =>
            match literal (list_ascii_of_string "false") (c :: tl) with
            | Some r => Parsed (Bool false) r
            | None =>
            match literal (list_ascii_of_string "null") (c :: tl) with
            | Some r => Parsed Null r
            | None => SyntaxError
            end end end
      end
  end

(** The elements of an array after its opening bracket (or after a comma),
    up to the closing bracket. *)
with parse_elements (fuel : nat) (s : list ascii) (acc : list value)
  : result value :=
  match fuel with
  | O => OutOfFuel
  | S fuel1 =>
      match parse_value fuel1 s with
      | Parsed v r =>
          match skip_ws r with
          | c :: r1 =>
              if Ascii.eqb c "," then parse_elements fuel1 r1 (v :: acc)
              else if Ascii.eqb c "]" then Parsed (Array (rev (v :: acc))) r1
              else SyntaxError
          | [] => SyntaxError
          end
      | SyntaxError => SyntaxError
      | OutOfFuel => OutOfFuel
      end
  end

(** The members of an object after its opening brace (or after a comma),
    up to the closing brace. *)
with parse_members (fuel : nat) (s : list ascii)
                   (acc : list (string * value)) : result value :=
  match fuel with
  | O => OutOfFuel
  | S fuel1 =>
      match skip_ws s with
      | c :: tl =>
          if Ascii.eqb c DQ then
            match string_body tl [] with
            | Parsed name r =>
                match skip_ws r with
                | c1 :: r1 =>
                    if Ascii.eqb c1 ":" then
                      match parse_value fuel1 r1 with
                      | Parsed v r2 =>
                          match skip_ws r2 with
                          | c2 :: r3 =>
                              if Ascii.eqb c2 "," then
                                parse_members fuel1 r3 ((name, v) :: acc)
                              else if Ascii.eqb c2 "}" then
                                Parsed (Object (rev ((name, v) :: acc))) r3
                              else SyntaxError
                          | [] => SyntaxError
                          end
                      | SyntaxError => SyntaxError
                      | OutOfFuel => OutOfFuel
                      end
                    else SyntaxError
                | [] => SyntaxError
                end
            | SyntaxError => SyntaxError
            | OutOfFuel => OutOfFuel
            end
          else SyntaxError
      | [] => SyntaxError
      end
  end.

(** A JSON text is one value with nothing but white space after it. *)
Definition parse (text : string) : result value :=
  let s := list_ascii_of_string text in
  match parse_value (2 * List.length s + 2) s with
  | Parsed v r =>
      match skip_ws r with
      | [] => Parsed v []
      | _ :: _ => SyntaxError
      end
  | SyntaxError => SyntaxError
  | OutOfFuel => OutOfFuel
  end.

End Json.

(** ** Data model *)

(** [listen_t] *)
Record listen_t := mk_listen {
  psz_artist : option string;
  psz_title : option string;
  psz_album : option string;
  psz_track_number : option string;
  psz_musicbrainz_recording_id : option string;
  i_length : Z;
  date : Z
}.

(** The two fields of [vlc_url_t] that the plugin reads. *)
Record vlc_url_t := mk_url {
  psz_host : string;
  psz_path : string
}.

(** [struct intf_sys_t], without the handles of the player, the thread, the
    lock and the condition variable. *)
Record intf_sys_t := mk_sys {
  queue : list listen_t;
  live : bool;
  p_submit_url : vlc_url_t;
  psz_user_token : string;
  p_current_song : listen_t;
  b_meta_read : bool;
  time_played : Z
}.

Definition set_psz_artist (s : listen_t) (v : option string) : listen_t :=
  mk_listen v (psz_title s) (psz_album s) (psz_track_number s)
            (psz_musicbrainz_recording_id s) (i_length s) (date s).
Definition set_psz_title (s : listen_t) (v : option string) : listen_t :=
  mk_listen (psz_artist s) v (psz_album s) (psz_track_number s)
            (psz_musicbrainz_recording_id s) (i_length s) (date s).
Definition set_psz_album (s : listen_t) (v : option string) : listen_t :=
  mk_listen (psz_artist s) (psz_title s) v (psz_track_number s)
            (psz_musicbrainz_recording_id s) (i_length s) (date s).
Definition set_psz_track_number (s : listen_t) (v : option string) : listen_t :=
  mk_listen (psz_artist s) (psz_title s) (psz_album s) v
            (psz_musicbrainz_recording_id s) (i_length s) (date s).
Definition set_psz_musicbrainz_recording_id (s : listen_t) (v : option string)
  : listen_t :=
  mk_listen (psz_artist s) (psz_title s) (psz_album s) (psz_track_number s)
            v (i_length s) (date s).
Definition set_i_length (s : listen_t) (v : Z) : listen_t :=
  mk_listen (psz_artist s) (psz_title s) (psz_album s) (psz_track_number s)
            (psz_musicbrainz_recording_id s) v (date s).
Definition set_date (s : listen_t) (v : Z) : listen_t :=
  mk_listen (psz_artist s) (psz_title s) (psz_album s) (psz_track_number s)
            (psz_musicbrainz_recording_id s) (i_length s) v.

Definition set_queue (st : intf_sys_t) (v : list listen_t) : intf_sys_t :=
  mk_sys v (live st) (p_submit_url st) (psz_user_token st)
         (p_current_song st) (b_meta_read st) (time_played st).
Definition set_live (st : intf_sys_t) (v : bool) : intf_sys_t :=
  mk_sys (queue st) v (p_submit_url st) (psz_user_token st)
         (p_current_song st) (b_meta_read st) (time_played st).
Definition set_p_current_song (st : intf_sys_t) (v : listen_t) : intf_sys_t :=
  mk_sys (queue st) (live st) (p_submit_url st) (psz_user_token st)
         v (b_meta_read st) (time_played st).
Definition set_b_meta_read (st : intf_sys_t) (v : bool) : intf_sys_t :=
  mk_sys (queue st) (live st) (p_submit_url st) (psz_user_token st)
         (p_current_song st) v (time_played st).
Definition set_time_played (st : intf_sys_t) (v : Z) : intf_sys_t :=
  mk_sys (queue st) (live st) (p_submit_url st) (psz_user_token st)
         (p_current_song st) (b_meta_read st) v.

(** A [listen_t] of zero bytes: what [calloc] and [memset(.., 0, ..)] leave. *)
Definition zero_listen : listen_t :=
  mk_listen None None None None None 0 0.

(** [EMPTY_STR(str)] of vlc_common.h: [(!str || !*str)]. *)
Definition EMPTY_STR (str : option string) : bool :=
  match str with
  | None => true
  | Some EmptyString => true
  | Some (String _ _) => false
  end.

(** What the plugin reads of an [input_item_t] through the
    [input_item_Get...] accessors. *)
Record input_item_t := mk_item {
  input_item_GetAlbumArtist : option string;
  input_item_GetArtist : option string;
  input_item_GetTitle : option string;
  input_item_GetAlbum : option string;
  input_item_GetTrackID : option string;
  input_item_GetTrackNum : option string;
  input_item_GetDuration : Z;
  input_item_IsPreparsed : bool
}.

(** [enum vlc_player_state] of vlc_player.h, in the order of the header. *)
Inductive vlc_player_state :=
| VLC_PLAYER_STATE_STOPPED
| VLC_PLAYER_STATE_STARTED
| VLC_PLAYER_STATE_PLAYING
| VLC_PLAYER_STATE_PAUSED
| VLC_PLAYER_STATE_STOPPING.

(** The integer value of an enumerator. *)
Definition state_value (s : vlc_player_state) : Z :=
  match s with
  | VLC_PLAYER_STATE_STOPPED => 0
  | VLC_PLAYER_STATE_STARTED => 1
  | VLC_PLAYER_STATE_PLAYING => 2
  | VLC_PLAYER_STATE_PAUSED => 3
  | VLC_PLAYER_STATE_STOPPING => 4
  end.

(** The two status codes the plugin returns and compares. *)
Inductive vlc_status := VLC_SUCCESS | VLC_EGENERIC.

Definition vlc_status_eqb (a b : vlc_status) : bool :=
  match a, b with
  | VLC_SUCCESS, VLC_SUCCESS => true
  | VLC_EGENERIC, VLC_EGENERIC => true
  | _, _ => false
  end.

(** [vlc_vector_push], allocation taken to succeed (the code does not look at
    the result), and [vlc_vector_clear]. *)
Definition vlc_vector_push {A : Type} (v : list A) (item : A) : list A :=
  v ++ [item].
Definition vlc_vector_clear {A : Type} (v : list A) : list A := [].

(** ** Listen capture *)

Definition DeleteSong (p_song : listen_t) : listen_t :=
  let p_song := set_psz_artist p_song None in
  let p_song := set_psz_album p_song None in
  let p_song := set_psz_title p_song None in
  let p_song := set_psz_musicbrainz_recording_id p_song None in
  let p_song := set_psz_track_number p_song None in
  let p_song := set_i_length p_song 0 in
  set_date p_song 0.

Definition DeleteSongQueue (p_sys : intf_sys_t) : intf_sys_t :=
  let data := map DeleteSong (queue p_sys) in
  set_queue p_sys (vlc_vector_clear data).

(** A run of the C code ends with a value or with undefined behaviour. *)
Inductive outcome (A : Type) :=
| Returns (a : A)
| NullDereference.
Arguments Returns {A} a.
Arguments NullDereference {A}.

(** What the TLS layer does during one [SendRequest]: whether
    [vlc_tls_SocketOpenTLS] returns a socket, what [vlc_tls_Write] returns,
    and what the socket has for [vlc_tls_Read] ([None] when the read
    fails). *)
Record tls_session := mk_tls {
  tls_open : bool;
  tls_write : Z;
  tls_incoming : option (list byte)
}.

(** What the player and the closing thread do to the plugin: the three
    callbacks with what they read from the player and the wall clock, and
    the locked section of [Close]. *)
Inductive event :=
| EvPlayerStateChanged (video_tracks : Z) (state : vlc_player_state)
                       (current_media : option input_item_t) (now : Z)
| EvTimerUpdate (ts : Z)
| EvCurrentMediaChanged (new_media : option input_item_t)
                        (video_tracks : Z) (now : Z)
| EvClose.

(** Where the submission thread stands when it does not hold the lock. *)
Inductive worker_pc :=
| PcStart                        (* created, [Run] not entered yet *)
| PcTimedWait (deadline : Z)     (* inside [vlc_cond_timedwait] *)
| PcWait                         (* inside [vlc_cond_wait] *)
| PcSend (request : string)      (* lock released, [SendRequest] to run *)
| PcExited                       (* left the loop through [break] *)
| PcAborted                      (* [return NULL] after a failed build *)
| PcCrashed.                     (* undefined behaviour in [SendRequest] *)

(** What the submission thread obtains from outside between two of the
    places above. *)
Record worker_input := mk_input {
  in_ret : Z;              (* what [vlc_cond_timedwait] returned *)
  in_tick : Z;             (* the monotonic clock, [vlc_tick_now()] *)
  in_payload_ok : bool;    (* [vlc_memstream_close] in [PreparePayload] *)
  in_request_ok : bool;    (* [vlc_memstream_close] in [PrepareRequest] *)
  in_net : tls_session;    (* the TLS layer during [SendRequest] *)
  in_stack : list byte     (* [p_buffer] when [SendRequest] is entered *)
}.

(** A step of the whole plugin: a callback runs, or the submission thread
    goes from one place to the next.  The callbacks run one at a time (the
    player calls them), and what they change of the queue and of the
    liveness flag they change with the lock held, so the code of the thread
    between two releases of the lock is one step. *)
Inductive action :=
| ActEvent (e : event)
| ActWorker (i : worker_input).

(** The plugin: its shared structure, the place of the submission thread,
    and the requests handed to [SendRequest] so far, oldest first. *)
Record system := mk_system {
  sys : intf_sys_t;
  pc : worker_pc;
  attempts : list string
}.

(** A pair of functions to run the examples with: the encoding returns the
    string as it is, and so does the decoding. *)
Definition plain_encode (str : string) : option string := Some str.
Definition plain_decode (str : option string) : option string := str.

Section Listenbrainz.

Set Default Proof Using "Type".

(** [vlc_uri_encode] and [vlc_uri_decode] of vlc_url.h; both may return
    the null pointer. *)
Variable vlc_uri_encode : string -> option string.
Variable vlc_uri_decode : option string -> option string.

(** The [PACKAGE] and [VERSION] strings of config.h. *)
Variables PACKAGE VERSION : string.

(** The macro [RETRIEVE_METADATA(a, b)]: [psz_data] is what
    [input_item_Get##b(item)] returned, the result is the new value of
    [a]. *)
Definition RETRIEVE_METADATA (a : option string) (psz_data : option string)
  : option string :=
  match psz_data with
  | Some (String c tl) => vlc_uri_decode (vlc_uri_encode (String c tl))
  | Some EmptyString => a
  | None => a
  end.

(** [ReadMetaData], from the retrieval of the title on. *)
Definition ReadMetaData_title (p_sys : intf_sys_t) (song : listen_t)
           (item : input_item_t) : intf_sys_t :=
  let song :=
    set_psz_title song
      (RETRIEVE_METADATA (psz_title song) (input_item_GetTitle item)) in
  match psz_title song with
  | None => set_p_current_song p_sys (DeleteSong song)
  | Some _ =>
      let song :=
        set_psz_album song
          (RETRIEVE_METADATA (psz_album song) (input_item_GetAlbum item)) in
      let song :=
        set_psz_musicbrainz_recording_id song
          (RETRIEVE_METADATA (psz_musicbrainz_recording_id song)
                             (input_item_GetTrackID item)) in
      let song :=
        set_psz_track_number song
          (RETRIEVE_METADATA (psz_track_number song)
                             (input_item_GetTrackNum item)) in
      let song :=
        set_i_length song
          (to_int (SEC_FROM_VLC_TICK (input_item_GetDuration item))) in
      set_p_current_song p_sys song
  end.

(** [ReadMetaData(p_this, item)]; [now] is what [time()] returns. *)
Definition ReadMetaData (p_sys : intf_sys_t) (item : option input_item_t)
           (now : Z) : intf_sys_t :=
  match item with
  | None => p_sys
  | Some item =>
      let p_sys := set_b_meta_read p_sys true in
      let song := set_date (p_current_song p_sys) now in
      let song :=
        set_psz_artist song
          (RETRIEVE_METADATA (psz_artist song)
                             (input_item_GetAlbumArtist item)) in
      match psz_artist song with
      | None =>
          let song :=
            set_psz_artist song
              (RETRIEVE_METADATA (psz_artist song)
                                 (input_item_GetArtist item)) in
          match psz_artist song with
          | None => set_p_current_song p_sys (DeleteSong song)
          | Some _ => ReadMetaData_title p_sys song item
          end
      | Some _ => ReadMetaData_title p_sys song item
      end
  end.

Definition Enqueue (p_sys : intf_sys_t) : intf_sys_t :=
  let p_sys := set_b_meta_read p_sys false in
  if date (p_current_song p_sys) =? 0 then p_sys
  else
    if EMPTY_STR (psz_artist (p_current_song p_sys))
       || EMPTY_STR (psz_title (p_current_song p_sys))
    then set_p_current_song p_sys (DeleteSong (p_current_song p_sys))
    else
      let p_sys :=
        if i_length (p_current_song p_sys) =? 0
        then set_p_current_song p_sys
               (set_i_length (p_current_song p_sys)
                             (to_int (time_played p_sys)))
        else p_sys in
      if time_played p_sys <? 30
      then set_p_current_song p_sys (DeleteSong (p_current_song p_sys))
      else
        let p_sys :=
          set_queue p_sys
            (vlc_vector_push (queue p_sys) (p_current_song p_sys)) in
        set_p_current_song p_sys zero_listen.

(** [PlayerStateChanged]; [video_tracks] is what
    [vlc_player_GetVideoTrackCount] returns and [current_media] what
    [vlc_player_GetCurrentMedia] returns. *)
Definition PlayerStateChanged (video_tracks : Z) (state : vlc_player_state)
           (current_media : option input_item_t) (now : Z)
           (p_sys : intf_sys_t) : intf_sys_t :=
  if negb (video_tracks =? 0) then p_sys
  else
    if negb (b_meta_read p_sys)
       && (state_value VLC_PLAYER_STATE_PLAYING <=? state_value state)
    then ReadMetaData p_sys current_media now
    else
      match state with
      | VLC_PLAYER_STATE_STOPPED => Enqueue p_sys
      | _ => p_sys
      end.

(** [OnTimerUpdate]; [ts] is [value->ts].  The code subtracts in
    [int64_t]: the difference below is that of the code for every [ts] of
    the type but the least one, [- 2 ^ 63], where the subtraction of the
    code overflows. *)
Definition OnTimerUpdate (ts : Z) (p_sys : intf_sys_t) : intf_sys_t :=
  set_time_played p_sys (SEC_FROM_VLC_TICK (ts - VLC_TICK_0)).

Definition OnCurrentMediaChanged (new_media : option input_item_t)
           (video_tracks : Z) (now : Z) (p_sys : intf_sys_t) : intf_sys_t :=
  let p_sys := Enqueue p_sys in
  let p_sys := set_b_meta_read p_sys false in
  match new_media with
  | None => p_sys
  | Some media =>
      if negb (video_tracks =? 0) then p_sys
      else
        let p_sys := set_time_played p_sys 0 in
        if input_item_IsPreparsed media
        then ReadMetaData p_sys new_media now
        else p_sys
  end.

(** The locked section of [Close] (lines 490 to 493): the liveness flag is
    taken down (and the condition variable signalled).  What [Close] does
    after it has joined the thread, freeing the queue, the current song,
    the URL, the token and the structure, is not part of this step: no
    callback and no step of the thread runs after it. *)
Definition Close (p_sys : intf_sys_t) : intf_sys_t :=
  set_live p_sys false.

(** ** Payload and request builders *)

(** A one-character string holding the double quote. *)
Definition Q : string := String Json.DQ EmptyString.

(** How [%s] prints its argument; for the null pointer the C library
    prints [(null)]. *)
Definition fmt_s (str : option string) : string :=
  match str with
  | Some s => s
  | None => "(null)"%string
  end.

(** How [%zu] and [%PRIu64] print a non-negative integer. *)
Definition fmt_u (z : Z) : string :=
  NilEmpty.string_of_uint (N.to_uint (Z.to_N z)).

(** [vlc_memstream_printf] and [vlc_memstream_puts]: the text is appended
    to the stream. *)
Definition vlc_memstream_printf (ms : string) (text : string) : string :=
  (ms ++ text)%string.

(** The body of the loop of [PreparePayload] for one song. *)
Definition PreparePayload_song (payload : string) (p_song : listen_t)
  : string :=
  let payload :=
    vlc_memstream_printf payload
      ("{" ++ Q ++ "listened_at" ++ Q ++ ": "
           ++ fmt_u (to_uint64 (date p_song)))%string in
  let payload :=
    vlc_memstream_printf payload
      (", " ++ Q ++ "track_metadata" ++ Q ++ ": {" ++ Q ++ "artist_name"
            ++ Q ++ ": " ++ Q ++ fmt_s (psz_artist p_song) ++ Q
            ++ ", ")%string in
  let payload :=
    vlc_memstream_printf payload
      (" " ++ Q ++ "track_name" ++ Q ++ ": " ++ Q
           ++ fmt_s (psz_title p_song) ++ Q ++ ", ")%string in
  let payload :=
    if negb (EMPTY_STR (psz_album p_song))
    then vlc_memstream_printf payload
           (" " ++ Q ++ "release_name" ++ Q ++ ": " ++ Q
                ++ fmt_s (psz_album p_song) ++ Q)%string
    else payload in
  let payload :=
    if negb (EMPTY_STR (psz_musicbrainz_recording_id p_song))
    then vlc_memstream_printf payload
           (", " ++ Q ++ "additional_info" ++ Q ++ ": {" ++ Q
                 ++ "recording_mbid" ++ Q ++ ":" ++ Q
                 ++ fmt_s (psz_musicbrainz_recording_id p_song) ++ Q
                 ++ "} ")%string
    else payload in
  vlc_memstream_printf payload "}}".

Definition listen_type_single : string :=
  ("{" ++ Q ++ "listen_type" ++ Q ++ ":" ++ Q ++ "single" ++ Q ++ ","
       ++ Q ++ "payload" ++ Q ++ ":[")%string.

Definition listen_type_import : string :=
  ("{" ++ Q ++ "listen_type" ++ Q ++ ":" ++ Q ++ "import" ++ Q ++ ","
       ++ Q ++ "payload" ++ Q ++ ":[")%string.

(** [PreparePayload]; [memstream_ok] tells whether [vlc_memstream_close]
    reports success. *)
Definition PreparePayload (memstream_ok : bool) (p_sys : intf_sys_t)
  : option string :=
  let payload := EmptyString in
  let payload :=
    if (List.length (queue p_sys) =? 1)%nat
    then vlc_memstream_printf payload listen_type_single
    else vlc_memstream_printf payload listen_type_import in
  let payload := fold_left PreparePayload_song (queue p_sys) payload in
  let payload := vlc_memstream_printf payload "]}" in
  if memstream_ok then Some payload else None.

(** The end of a header line. *)
Definition CRLF : string := String "013" (String "010" EmptyString).

Definition PrepareRequest (memstream_ok : bool) (p_sys : intf_sys_t)
           (payload : string) : option string :=
  let request := EmptyString in
  let request :=
    vlc_memstream_printf request
      ("POST " ++ psz_path (p_submit_url p_sys) ++ " HTTP/1.1" ++ CRLF) in
  let request :=
    vlc_memstream_printf request
      ("Host: " ++ psz_host (p_submit_url p_sys) ++ CRLF) in
  let request :=
    vlc_memstream_printf request
      ("Authorization: Token " ++ psz_user_token p_sys ++ CRLF) in
  let request :=
    vlc_memstream_printf request
      ("User-Agent: " ++ PACKAGE ++ "/" ++ VERSION ++ CRLF) in
  let request :=
    vlc_memstream_printf request ("Connection: close" ++ CRLF) in
  let request :=
    vlc_memstream_printf request ("Accept-Encoding: identity" ++ CRLF) in
  let request :=
    vlc_memstream_printf request
      ("Content-Length: "
         ++ fmt_u (Z.of_nat (String.length payload)) ++ CRLF) in
  let request := vlc_memstream_printf request CRLF in
  let request := vlc_memstream_printf request payload in
  let request := vlc_memstream_printf request (CRLF ++ CRLF) in
  if memstream_ok then Some request else None.

(** ** Request sender *)

(** [vlc_tls_Read(sock, buf, len, false)]: at most [len] bytes are copied
    to the beginning of [buf]; the result is their number, or -1. *)
Definition vlc_tls_Read (incoming : option (list byte)) (buf : list byte)
           (len : nat) : Z * list byte :=
  match incoming with
  | None => (-1, buf)
  | Some data =>
      let got := firstn len data in
      (Z.of_nat (List.length got), got ++ skipn (List.length got) buf)
  end.

(** The bytes of the text ["200"]. *)
Definition status_200 : list byte := list_byte_of_string "200".

(** [SendRequest]; [p_buffer] is the content of the local array (1024
    bytes, not initialised) when the function is entered.  The result and
    the store through [status] are embedded; the debug message of line 354,
    which prints the array before the terminator is stored, is not. *)
Definition SendRequest (net : tls_session) (p_buffer : list byte)
           (request : string) : outcome vlc_status :=
  if negb (tls_open net) then Returns VLC_EGENERIC
  else
    let i_ret := tls_write net in
    if i_ret =? -1 then Returns VLC_EGENERIC
    else
      let (i_ret, p_buffer) :=
        vlc_tls_Read (tls_incoming net) p_buffer (1024 - 1) in
      if i_ret <=? 0 then Returns VLC_EGENERIC
      else
        let p_buffer := CStr.store p_buffer (Z.to_nat i_ret) CStr.NUL in
        match CStr.strchr p_buffer CStr.LF with
        | None => NullDereference
        | Some status =>
            let p_buffer := CStr.store p_buffer status CStr.NUL in
            match CStr.strstr p_buffer status_200 with
            | Some _ => Returns VLC_SUCCESS
            | None => Returns VLC_EGENERIC
            end
        end.

(** ** Submission thread *)

Definition handle_event (e : event) (p_sys : intf_sys_t) : intf_sys_t :=
  match e with
  | EvPlayerStateChanged video_tracks state current_media now =>
      PlayerStateChanged video_tracks state current_media now p_sys
  | EvTimerUpdate ts => OnTimerUpdate ts p_sys
  | EvCurrentMediaChanged new_media video_tracks now =>
      OnCurrentMediaChanged new_media video_tracks now p_sys
  | EvClose => Close p_sys
  end.

(** [Open], as far as the shared structure goes: [calloc], the liveness
    flag, and [Configure] with the token and the parsed URL. *)
Definition Open (token : option string) (url : vlc_url_t)
  : option intf_sys_t :=
  if EMPTY_STR token then None
  else Some (mk_sys [] true url (fmt_s token) zero_listen false 0).

(** [Run], from [PreparePayload] to the call of [SendRequest]. *)
Definition Run_submit (i : worker_input) (p_sys : intf_sys_t)
  : worker_pc :=
  match PreparePayload (in_payload_ok i) p_sys with
  | None => PcAborted
  | Some payload =>
      match PrepareRequest (in_request_ok i) p_sys payload with
      | None => PcAborted
      | Some request => PcSend request
      end
  end.

(** [Run], from the test of the second [while] on: the thread waits for
    work, leaves the loop, or submits. *)
Definition Run_work_wait (i : worker_input) (p_sys : intf_sys_t)
  : worker_pc :=
  if live p_sys && (List.length (queue p_sys) =? 0)%nat then PcWait
  else if negb (live p_sys) then PcExited
  else Run_submit i p_sys.

(** [Run], from the test of the first [while] on; [ret] is the local
    variable of that name. *)
Definition Run_backoff (i : worker_input) (deadline : Z) (ret : Z)
           (p_sys : intf_sys_t) : worker_pc :=
  if live p_sys && (ret =? 0) then PcTimedWait deadline
  else Run_work_wait i p_sys.

(** [Run], from the top of the [for] loop on. *)
Definition Run_loop_top (i : worker_input) (b_wait : bool)
           (p_sys : intf_sys_t) : worker_pc :=
  if b_wait then
    let deadline := in_tick i + VLC_TICK_FROM_SEC 60 in
    let ret := 0 in
    Run_backoff i deadline ret p_sys
  else Run_work_wait i p_sys.

(** [Run], after [SendRequest] returned [ret] and the lock was taken
    again: the new value of [b_wait] and the shared structure. *)
Definition Run_after_send (ret : vlc_status) (p_sys : intf_sys_t)
  : bool * intf_sys_t :=
  if vlc_status_eqb ret VLC_SUCCESS then (false, DeleteSongQueue p_sys)
  else (true, p_sys).

(** The submission thread goes on from where it stands until it releases
    the lock again. *)
Definition worker_step (i : worker_input) (at_pc : worker_pc)
           (p_sys : intf_sys_t) : worker_pc * intf_sys_t :=
  match at_pc with
  | PcStart => (Run_loop_top i false p_sys, p_sys)
  | PcTimedWait deadline => (Run_backoff i deadline (in_ret i) p_sys, p_sys)
  | PcWait => (Run_work_wait i p_sys, p_sys)
  | PcSend request =>
      match SendRequest (in_net i) (in_stack i) request with
      | NullDereference => (PcCrashed, p_sys)
      | Returns ret =>
          let (b_wait, p_sys) := Run_after_send ret p_sys in
          (Run_loop_top i b_wait p_sys, p_sys)
      end
  | PcExited => (PcExited, p_sys)
  | PcAborted => (PcAborted, p_sys)
  | PcCrashed => (PcCrashed, p_sys)
  end.

(** The requests that reaching [at_pc] hands to [SendRequest]. *)
Definition new_attempt (at_pc : worker_pc) : list string :=
  match at_pc with
  | PcSend request => [request]
  | _ => []
  end.

Definition system_step (a : action) (s : system) : system :=
  match a with
  | ActEvent e => mk_system (handle_event e (sys s)) (pc s) (attempts s)
  | ActWorker i =>
      let (pc1, p_sys) := worker_step i (pc s) (sys s) in
      mk_system p_sys pc1 (attempts s ++ new_attempt pc1)
  end.

(** The plugin after the actions of [acts], first action first. *)
Definition run (acts : list action) (s : system) : system :=
  fold_left (fun s a => system_step a s) acts s.

(** The plugin after the events of [evs], first event first. *)
Definition handle_events (evs : list event) (p_sys : intf_sys_t)
  : intf_sys_t :=
  fold_left (fun p_sys e => handle_event e p_sys) evs p_sys.

(** ** What the properties below are stated with *)

(** The current song passes the tests of [Enqueue]: an artist, a title,
    and at least 30 seconds played. *)
Definition eligible (p_sys : intf_sys_t) : Prop :=
  EMPTY_STR (psz_artist (p_current_song p_sys)) = false
  /\ EMPTY_STR (psz_title (p_current_song p_sys)) = false
  /\ 30 <= time_played p_sys.

(** A zero date marks a current song that was never filled: nothing else
    is set in it.  This holds from [Open] on, as long as [time()] does not
    return 0. *)
Definition sentinel_ok (p_sys : intf_sys_t) : Prop :=
  date (p_current_song p_sys) = 0 -> p_current_song p_sys = zero_listen.

(** The current song is filled only while the metadata flag is up. *)
Definition capture_inv (p_sys : intf_sys_t) : Prop :=
  sentinel_ok p_sys
  /\ (b_meta_read p_sys = false -> p_current_song p_sys = zero_listen).

(** [time()] does not return 0 (the first second of 1970). *)
Definition event_ok (e : event) : Prop :=
  match e with
  | EvPlayerStateChanged _ _ _ now => now <> 0
  | EvCurrentMediaChanged _ _ now => now <> 0
  | EvTimerUpdate _ => True
  | EvClose => True
  end.

Definition action_ok (a : action) : Prop :=
  match a with
  | ActEvent e => event_ok e
  | ActWorker _ => True
  end.

(** The states of the plugin from [Open] on. *)
Inductive reachable : system -> Prop :=
| reach_open : forall token url p_sys,
    Open token url = Some p_sys ->
    reachable (mk_system p_sys PcStart [])
| reach_step : forall s a,
    reachable s -> action_ok a -> reachable (system_step a s).

(** What a metadata string of the item becomes when it is captured: the
    decoding of its encoding, and nothing for a missing or empty one. *)
Definition sanitized (psz_data : option string) : option string :=
  match psz_data with
  | Some (String c tl) => vlc_uri_decode (vlc_uri_encode (String c tl))
  | Some EmptyString => None
  | None => None
  end.

(** The artist captured from an item: the album artist, else the artist. *)
Definition captured_artist (item : input_item_t) : option string :=
  match sanitized (input_item_GetAlbumArtist item) with
  | Some a => Some a
  | None => sanitized (input_item_GetArtist item)
  end.

(** An event that does not run [Enqueue]: neither a change of the current
    media nor a signal of the stopped state. *)
Definition keeps_flag (e : event) : Prop :=
  match e with
  | EvPlayerStateChanged _ state _ _ => state <> VLC_PLAYER_STATE_STOPPED
  | EvTimerUpdate _ => True
  | EvCurrentMediaChanged _ _ _ => False
  | EvClose => True
  end.

(** An event other than a change of the current media. *)
Definition no_media_change (e : event) : Prop :=
  match e with
  | EvCurrentMediaChanged _ _ _ => False
  | _ => True
  end.

(** After the metadata of [item] were read at [now] and the events of
    [evs] were handled, a signal of the playing state for the same item
    at [now'] leaves the plugin as it is. *)
Definition playing_signal_ignored (p_sys : intf_sys_t)
           (item : input_item_t) (now : Z) (evs : list event) (now' : Z)
  : Prop :=
  let st := handle_events evs (ReadMetaData p_sys (Some item) now) in
  PlayerStateChanged 0 VLC_PLAYER_STATE_PLAYING (Some item) now' st = st.

(** A queued listen with no album and no recording id, one with an album,
    and a plugin with a given queue. *)
Definition listen_without_album : listen_t :=
  mk_listen (Some "X"%string) (Some "Y"%string) None None None
            45 1600000000.

Definition listen_with_album : listen_t :=
  mk_listen (Some "X"%string) (Some "Y"%string) (Some "A"%string) None None
            45 1600000000.

Definition plugin_with_queue (q : list listen_t) : intf_sys_t :=
  mk_sys q true (mk_url "api.listenbrainz.org" "/1/submit-listens")
         "token" zero_listen false 0.

(** The text of one listen with an album, as [PreparePayload] writes it. *)
Definition text_with_album : string :=
  ("{" ++ Q ++ "listened_at" ++ Q ++ ": 1600000000, "
       ++ Q ++ "track_metadata" ++ Q ++ ": {"
       ++ Q ++ "artist_name" ++ Q ++ ": " ++ Q ++ "X" ++ Q ++ ",  "
       ++ Q ++ "track_name" ++ Q ++ ": " ++ Q ++ "Y" ++ Q ++ ",  "
       ++ Q ++ "release_name" ++ Q ++ ": " ++ Q ++ "A" ++ Q
       ++ "}}")%string.

(** The text of one listen without an album: a comma, then the closing
    brace. *)
Definition text_without_album : string :=
  ("{" ++ Q ++ "listened_at" ++ Q ++ ": 1600000000, "
       ++ Q ++ "track_metadata" ++ Q ++ ": {"
       ++ Q ++ "artist_name" ++ Q ++ ": " ++ Q ++ "X" ++ Q ++ ",  "
       ++ Q ++ "track_name" ++ Q ++ ": " ++ Q ++ "Y" ++ Q ++ ", "
       ++ "}}")%string.

(** The first line of a response: its bytes before the first line feed. *)
Fixpoint first_line (response : list byte) : list byte :=
  match response with
  | [] => []
  | b :: tl => if Byte.eqb b CStr.LF then [] else b :: first_line tl
  end.

(** A response that stops before the end of its status line. *)
Definition response_without_line_feed : list byte :=
  list_byte_of_string "HTTP/1.1 200 OK".

(** [vlc_cond_timedwait] reports a timeout (a result other than 0) only
    once the deadline is reached; [in_tick] is the clock when it
    returns. *)
Definition timedwait_contract (deadline : Z) (i : worker_input) : Prop :=
  in_ret i <> 0 -> deadline <= in_tick i.

(** What can happen during the backoff short of a timeout and of a
    shutdown: callbacks of the player, and returns of
    [vlc_cond_timedwait] with 0 (the condition variable was signalled). *)
Definition signal_or_push (a : action) : Prop :=
  match a with
  | ActEvent e => e <> EvClose
  | ActWorker i => in_ret i = 0
  end.

(** The step [a] from [s] is the end of a submission that succeeded. *)
Definition submission_succeeds (a : action) (s : system) : bool :=
  match a, pc s with
  | ActWorker i, PcSend request =>
      match SendRequest (in_net i) (in_stack i) request with
      | Returns VLC_SUCCESS => true
      | _ => false
      end
  | _, _ => false
  end.

(** No step of [acts], run from [s], is the end of a submission that
    succeeded. *)
Fixpoint no_success (acts : list action) (s : system) : Prop :=
  match acts with
  | [] => True
  | a :: tl =>
      submission_succeeds a s = false /\ no_success tl (system_step a s)
  end.

(** *** Data of the examples *)

(** A media item with an artist and a title, 200 seconds long. *)
Definition plain_item : input_item_t :=
  mk_item None (Some "X"%string) (Some "Y"%string) None None None
          200000000 true.

(** The plugin 45 seconds into a track whose metadata were read. *)
Definition listening_45s : intf_sys_t :=
  mk_sys [] true (mk_url "api.listenbrainz.org" "/1/submit-listens")
         "token"
         (mk_listen (Some "X"%string) (Some "Y"%string) None None None
                    0 1600000000)
         true 45.

(** The player pauses and resumes while the timer runs. *)
Definition pause_and_resume : list event :=
  [EvTimerUpdate 45000001;
   EvPlayerStateChanged 0 VLC_PLAYER_STATE_PAUSED (Some plain_item)
                        1600000050;
   EvPlayerStateChanged 0 VLC_PLAYER_STATE_PLAYING (Some plain_item)
                        1600000060].

(** The player stops 100 seconds after the metadata were read. *)
Definition stop_signal : list event :=
  [EvPlayerStateChanged 0 VLC_PLAYER_STATE_STOPPED (Some plain_item)
                        1600000100].

(** A response with a status line, and the array it is read into. *)
Definition response_200 : list byte :=
  list_byte_of_string "HTTP/1.1 200 OK" ++ [x0d; x0a].

Definition zeroed_stack : list byte := repeat x00 1024.

(** The outside of the submission thread when the server cannot be
    reached, and when a wait returns with 0. *)
Definition unreachable_server : worker_input :=
  mk_input 0 5000000 true true (mk_tls false 0 None) zeroed_stack.

Definition signalled : worker_input :=
  mk_input 0 9000000 true true (mk_tls false 0 None) zeroed_stack.

(** A track is played for 45 seconds and stopped, and the submission
    thread starts: a request is out. *)
Definition one_listen_played : list action :=
  [ActEvent (EvCurrentMediaChanged (Some plain_item) 0 1600000000);
   ActEvent (EvTimerUpdate 45000001);
   ActEvent (EvPlayerStateChanged 0 VLC_PLAYER_STATE_STOPPED
                                  (Some plain_item) 1600000045);
   ActWorker unreachable_server].

Definition started : system :=
  mk_system (plugin_with_queue []) PcStart [].

Definition request_out : system := run one_listen_played started.

(** The request that is out in [request_out]. *)
Definition request_of (s : system) : string :=
  match pc s with
  | PcSend request => request
  | _ => EmptyString
  end.

(** The submission thread in its backoff, one record in the queue. *)
Definition in_backoff : system :=
  mk_system (plugin_with_queue [listen_with_album])
            (PcTimedWait 65000000) [].

(** *** What the further properties are stated with *)

(** A record as [Enqueue] lets it into the queue: an artist, a title and a
    date. *)
Definition queued_ok (r : listen_t) : Prop :=
  EMPTY_STR (psz_artist r) = false
  /\ EMPTY_STR (psz_title r) = false
  /\ date r <> 0.

(** A callback that runs while the player has a video track. *)
Definition video_event (e : event) : Prop :=
  match e with
  | EvPlayerStateChanged video_tracks _ _ _ => video_tracks <> 0
  | EvCurrentMediaChanged _ video_tracks _ => video_tracks <> 0
  | EvTimerUpdate _ => True
  | EvClose => True
  end.

(** The request that [Run] builds from the queue [q], the memory streams
    working. *)
Definition request_for (p_sys : intf_sys_t) (q : list listen_t)
  : option string :=
  match PreparePayload true (set_queue p_sys q) with
  | Some payload => PrepareRequest true p_sys payload
  | None => None
  end.

(** The submission thread has returned from [Run], or is lost. *)
Definition thread_gone (at_pc : worker_pc) : Prop :=
  at_pc = PcExited \/ at_pc = PcAborted \/ at_pc = PcCrashed.

(** The C string at the beginning of a buffer: its bytes before the first
    NUL. *)
Fixpoint c_string (buf : list byte) : list byte :=
  match buf with
  | [] => []
  | b :: tl => if Byte.eqb b CStr.NUL then [] else b :: c_string tl
  end.

(** The number that a run of decimal digits denotes. *)
Definition read_decimal (digits : string) : option Z :=
  option_map (fun d => Z.of_N (N.of_uint d)) (NilEmpty.uint_of_string digits).

(** While the request of [request_out] is out, a second track is played for
    60 seconds and stopped. *)
Definition second_listen_played : list action :=
  [ActEvent (EvCurrentMediaChanged (Some plain_item) 0 1600000100);
   ActEvent (EvTimerUpdate 60000001);
   ActEvent (EvPlayerStateChanged 0 VLC_PLAYER_STATE_STOPPED
                                  (Some plain_item) 1600000160)].

Definition request_out_and_push : system :=
  run second_listen_played request_out.

(** The outside of the submission thread when the server answers 200, when
    a wait times out, and when the memory stream of the payload fails. *)
Definition server_accepts : worker_input :=
  mk_input 0 6000000 true true (mk_tls true 7 (Some response_200))
           zeroed_stack.

Definition timed_out : worker_input :=
  mk_input 110 65000000 true true (mk_tls false 0 None) zeroed_stack.

Definition out_of_memory : worker_input :=
  mk_input 0 5000000 false true (mk_tls false 0 None) zeroed_stack.

(** The submission thread waiting for work, one record in the queue. *)
Definition work_arrived : system :=
  mk_system (plugin_with_queue [listen_with_album]) PcWait [].

(** A character that a JSON string holds as it is written: not the double
    quote, not the backslash, not a control character. *)
Definition plain_char (c : ascii) : bool :=
  negb (Ascii.eqb c Json.DQ) && negb (Ascii.eqb c Json.BS)
  && negb (nat_of_ascii c <? 32)%nat.

Fixpoint plain_text (s : string) : bool :=
  match s with
  | EmptyString => true
  | String c tl => plain_char c && plain_text tl
  end.

(** The JSON value of a record with an album: the members that
    [PreparePayload] writes for it, [additional_info] only when the
    recording id is not empty. *)
Definition listen_value (date : Z) (artist title album : string)
           (recording_id : option string) : Json.value :=
  Json.Object
    [("listened_at"%string, Json.Number (fmt_u (date mod 2 ^ 64)));
     ("track_metadata"%string,
      Json.Object
        ([("artist_name"%string, Json.Str artist);
          ("track_name"%string, Json.Str title);
          ("release_name"%string, Json.Str album)]
           ++ (if EMPTY_STR recording_id then []
               else [("additional_info"%string,
                      Json.Object
                        [("recording_mbid"%string,
                          Json.Str (fmt_s recording_id))])])))].

(** The four strings of a record that [PreparePayload] may print, as it
    prints them, are plain. *)
Definition plain_record (r : listen_t) : Prop :=
  plain_text (fmt_s (psz_artist r)) = true
  /\ plain_text (fmt_s (psz_title r)) = true
  /\ plain_text (fmt_s (psz_album r)) = true
  /\ plain_text (fmt_s (psz_musicbrainz_recording_id r)) = true.

(** The opening of the payload up to the bracket of the array, for a
    listen type. *)
Definition payload_opening (listen_type : string) : string :=
  ("{" ++ Q ++ "listen_type" ++ Q ++ ":" ++ Q ++ listen_type ++ Q ++ ","
       ++ Q ++ "payload" ++ Q ++ ":[")%string.

(** Responses that stop before the end of their status line, with the
    status 401. *)
Definition response_401_without_line_feed : list byte :=
  list_byte_of_string "HTTP/1.1 401 UNAUTHORIZED".

(** Two items of one album. *)
Definition album_item : input_item_t :=
  mk_item None (Some "X"%string) (Some "Y"%string) (Some "A"%string)
          None None 200000000 true.

Definition other_item : input_item_t :=
  mk_item None (Some "X"%string) (Some "Other"%string) (Some "A"%string)
          None None 200000000 true.

(** A first track is played for 45 seconds and stopped; the thread builds
    the request; the server cannot be reached; the 60 seconds of the
    backoff pass and the thread builds the request again; while that
    request is out, a second track is played for 60 seconds and stopped. *)
Definition retry_out_and_push : list action :=
  [ActEvent (EvCurrentMediaChanged (Some album_item) 0 1600000000);
   ActEvent (EvTimerUpdate 45000001);
   ActEvent (EvPlayerStateChanged 0 VLC_PLAYER_STATE_STOPPED
                                  (Some album_item) 1600000045);
   ActWorker unreachable_server;
   ActWorker unreachable_server;
   ActWorker timed_out;
   ActEvent (EvCurrentMediaChanged (Some other_item) 0 1600000100);
   ActEvent (EvTimerUpdate 60000001);
   ActEvent (EvPlayerStateChanged 0 VLC_PLAYER_STATE_STOPPED
                                  (Some other_item) 1600000160)].

(** The state of the plugin then: the retry is out and the record of the
    second track was pushed. *)
Definition retry_in_flight : system :=
  run retry_out_and_push started.

(** The records of the two tracks. *)
Definition first_record : listen_t :=
  mk_listen (Some "X"%string) (Some "Y"%string) (Some "A"%string) None None
            200 1600000000.

Definition second_record : listen_t :=
  mk_listen (Some "X"%string) (Some "Other"%string) (Some "A"%string)
            None None 200 1600000100.

(** ** Listen capture: properties *)

(** [tauto], with the external functions left out of the context. *)
Ltac prop_tauto :=
  try clear vlc_uri_encode; try clear vlc_uri_decode;
  try clear PACKAGE; try clear VERSION; tauto.

Lemma DeleteSong_zero : forall p_song, DeleteSong p_song = zero_listen.
Proof. reflexivity. Qed.

Lemma app_singleton_neq : forall (A : Type) (l : list A) (x : A),
  l <> l ++ [x].
Proof.
  intros A l x H.
  apply (f_equal (@List.length A)) in H.
  rewrite List.length_app in H. simpl in H. lia.
Qed.

Lemma eligible_dec : forall p_sys,
  eligible p_sys <->
  (negb (EMPTY_STR (psz_artist (p_current_song p_sys))
         || EMPTY_STR (psz_title (p_current_song p_sys)))
   && negb (time_played p_sys <? 30)) = true.
Proof.
  intros p_sys. unfold eligible.
  destruct (EMPTY_STR (psz_artist (p_current_song p_sys)));
    destruct (EMPTY_STR (psz_title (p_current_song p_sys)));
    destruct (Z.ltb_spec (time_played p_sys) 30); simpl;
    (split;
     [ intros (Ha & Ht & Hp); try discriminate; try lia; reflexivity
     | intros Hb; try discriminate; repeat split; lia ]).
Qed.

(** [Enqueue] on a song that passes the tests: the song goes to the end of
    the queue, its length defaulted, and the current song is zeroed. *)
Lemma Enqueue_eligible : forall p_sys,
  date (p_current_song p_sys) <> 0 ->
  eligible p_sys ->
  Enqueue p_sys =
  mk_sys (queue p_sys
            ++ [set_i_length (p_current_song p_sys)
                  (if i_length (p_current_song p_sys) =? 0
                   then to_int (time_played p_sys)
                   else i_length (p_current_song p_sys))])
         (live p_sys) (p_submit_url p_sys) (psz_user_token p_sys)
         zero_listen false (time_played p_sys).
Proof.
  intros p_sys Hd (Ha & Ht & Hp).
  destruct p_sys as [q l u t [a ti al tn id len d] b tp]; simpl in *.
  unfold Enqueue; simpl.
  destruct (Z.eqb_spec d 0) as [|_]; [contradiction|].
  rewrite Ha, Ht; simpl.
  destruct (Z.eqb_spec len 0) as [->|_]; simpl;
    destruct (Z.ltb_spec tp 30); try lia; reflexivity.
Qed.

(** [Enqueue] on a song that fails a test: the queue is left as it is and
    the current song is zeroed. *)
Lemma Enqueue_not_eligible : forall p_sys,
  sentinel_ok p_sys ->
  ~ eligible p_sys ->
  Enqueue p_sys =
  mk_sys (queue p_sys) (live p_sys) (p_submit_url p_sys)
         (psz_user_token p_sys) zero_listen false (time_played p_sys).
Proof.
  intros p_sys Hs Hn.
  rewrite eligible_dec in Hn.
  destruct p_sys as [q l u t [a ti al tn id len d] b tp].
  unfold sentinel_ok in Hs; simpl in *.
  unfold Enqueue; simpl.
  destruct (Z.eqb_spec d 0) as [Hd|_].
  - rewrite (Hs Hd). reflexivity.
  - destruct (EMPTY_STR a || EMPTY_STR ti); simpl in *; [reflexivity|].
    destruct (Z.eqb_spec len 0) as [->|_]; simpl;
      destruct (tp <? 30); simpl in *; try reflexivity;
      exfalso; apply Hn; reflexivity.
Qed.

(** A current song that was never filled is not eligible. *)
Lemma sentinel_not_eligible : forall p_sys,
  sentinel_ok p_sys -> date (p_current_song p_sys) = 0 -> ~ eligible p_sys.
Proof.
  intros p_sys Hs Hd (Ha & _). rewrite (Hs Hd) in Ha. discriminate.
Qed.

(** C1.  For every current listen record, [Enqueue] adds the record to the
    end of the queue if and only if its artist is not empty, its title is
    not empty and at least 30 seconds were played; the queued record has
    the strings and the date of the current one.  A record that fails a
    test is not queued, and the current record is reset to the empty one
    in every case. *)
Theorem Enqueue_queues_iff_eligible : forall p_sys,
  sentinel_ok p_sys ->
  (eligible p_sys <->
     exists r, queue (Enqueue p_sys) = queue p_sys ++ [r])
  /\ (forall r, queue (Enqueue p_sys) = queue p_sys ++ [r] ->
        psz_artist r = psz_artist (p_current_song p_sys)
        /\ psz_title r = psz_title (p_current_song p_sys)
        /\ psz_album r = psz_album (p_current_song p_sys)
        /\ psz_track_number r = psz_track_number (p_current_song p_sys)
        /\ psz_musicbrainz_recording_id r
           = psz_musicbrainz_recording_id (p_current_song p_sys)
        /\ date r = date (p_current_song p_sys))
  /\ (~ eligible p_sys -> queue (Enqueue p_sys) = queue p_sys)
  /\ p_current_song (Enqueue p_sys) = zero_listen.
Proof.
  intros p_sys Hs.
  assert (Hcase : eligible p_sys \/ ~ eligible p_sys).
  { rewrite eligible_dec.
    destruct (negb _ && negb _); [left|right]; congruence. }
  destruct Hcase as [He|Hn].
  - assert (Hd : date (p_current_song p_sys) <> 0).
    { intros Hd. exact (sentinel_not_eligible p_sys Hs Hd He). }
    rewrite (Enqueue_eligible p_sys Hd He); simpl.
    split; [|split; [|split]].
    + split; [intros _; eexists; reflexivity | intros _; exact He].
    + intros r Hr. apply app_inv_head in Hr. injection Hr as <-.
      repeat split.
    + intros Hn. contradiction.
    + reflexivity.
  - rewrite (Enqueue_not_eligible p_sys Hs Hn); simpl.
    split; [|split; [|split]].
    + split; [intros He; contradiction|].
      intros [r Hr]. exfalso. exact (app_singleton_neq _ _ _ Hr).
    + intros r Hr. exfalso. exact (app_singleton_neq _ _ _ Hr).
    + reflexivity.
    + reflexivity.
Qed.

Lemma RETRIEVE_METADATA_fresh : forall psz_data,
  RETRIEVE_METADATA None psz_data = sanitized psz_data.
Proof. intros [[|c tl]|]; reflexivity. Qed.

(** What [ReadMetaData] leaves: the flag up, and a current song that is
    either zeroed or dated [now] with an artist and a title. *)
Lemma ReadMetaData_shape : forall p_sys item now,
  exists song,
    ReadMetaData p_sys (Some item) now =
    set_p_current_song (set_b_meta_read p_sys true) song
    /\ (song = zero_listen
        \/ (date song = now /\ psz_artist song <> None
            /\ psz_title song <> None)).
Proof.
  intros p_sys item now.
  unfold ReadMetaData, ReadMetaData_title; cbn.
  destruct (RETRIEVE_METADATA (psz_artist (p_current_song p_sys))
              (input_item_GetAlbumArtist item)) as [a|] eqn:Ea; cbn.
  - destruct (RETRIEVE_METADATA (psz_title (p_current_song p_sys))
                (input_item_GetTitle item)) as [t|] eqn:Et; cbn.
    + eexists; split; [reflexivity|]. right; cbn.
      repeat split; congruence.
    + eexists; split; [reflexivity|]. left; reflexivity.
  - destruct (RETRIEVE_METADATA None (input_item_GetArtist item))
      as [a|] eqn:Ea'; cbn.
    + destruct (RETRIEVE_METADATA (psz_title (p_current_song p_sys))
                  (input_item_GetTitle item)) as [t|] eqn:Et; cbn.
      * eexists; split; [reflexivity|]. right; cbn.
        repeat split; congruence.
      * eexists; split; [reflexivity|]. left; reflexivity.
    + eexists; split; [reflexivity|]. left; reflexivity.
Qed.

Lemma ReadMetaData_flag : forall p_sys item now,
  b_meta_read (ReadMetaData p_sys (Some item) now) = true.
Proof.
  intros p_sys item now.
  destruct (ReadMetaData_shape p_sys item now) as (song & -> & _).
  reflexivity.
Qed.

Lemma ReadMetaData_queue : forall p_sys item now,
  queue (ReadMetaData p_sys item now) = queue p_sys
  /\ live (ReadMetaData p_sys item now) = live p_sys.
Proof.
  intros p_sys [item|] now; [|split; reflexivity].
  destruct (ReadMetaData_shape p_sys item now) as (song & -> & _).
  split; reflexivity.
Qed.

Lemma ReadMetaData_inv : forall p_sys item now,
  now <> 0 -> capture_inv p_sys ->
  capture_inv (ReadMetaData p_sys item now).
Proof.
  intros p_sys [item|] now Hnow Hinv; [|exact Hinv].
  destruct (ReadMetaData_shape p_sys item now) as (song & -> & Hsong).
  split.
  - unfold sentinel_ok; cbn. intros Hd.
    destruct Hsong as [->|(Hdate & _)]; [reflexivity|congruence].
  - cbn. discriminate.
Qed.

(** After [Enqueue] the flag is down and the current song is zeroed. *)
Lemma Enqueue_resets : forall p_sys,
  sentinel_ok p_sys ->
  b_meta_read (Enqueue p_sys) = false
  /\ p_current_song (Enqueue p_sys) = zero_listen
  /\ live (Enqueue p_sys) = live p_sys
  /\ time_played (Enqueue p_sys) = time_played p_sys.
Proof.
  intros p_sys Hs.
  assert (Hcase : eligible p_sys \/ ~ eligible p_sys).
  { rewrite eligible_dec.
    destruct (negb _ && negb _); [left|right]; congruence. }
  destruct Hcase as [He|Hn].
  - assert (Hd : date (p_current_song p_sys) <> 0).
    { intros Hd. exact (sentinel_not_eligible p_sys Hs Hd He). }
    rewrite (Enqueue_eligible p_sys Hd He). repeat split.
  - rewrite (Enqueue_not_eligible p_sys Hs Hn). repeat split.
Qed.

Lemma zero_song_inv : forall p_sys,
  p_current_song p_sys = zero_listen -> capture_inv p_sys.
Proof. intros p_sys H. split; intros _; exact H. Qed.

Lemma Enqueue_inv : forall p_sys,
  capture_inv p_sys -> capture_inv (Enqueue p_sys).
Proof.
  intros p_sys [Hs _]. apply zero_song_inv.
  apply (Enqueue_resets p_sys Hs).
Qed.

(** The two properties of the current song hold whatever the player
    signals, as long as the wall clock is not at zero. *)
Lemma handle_event_inv : forall e p_sys,
  event_ok e -> capture_inv p_sys -> capture_inv (handle_event e p_sys).
Proof.
  intros [v state media now|ts|media v now|] p_sys Hok Hinv; cbn in *.
  - unfold PlayerStateChanged.
    destruct (negb (v =? 0)); [exact Hinv|].
    destruct (negb (b_meta_read p_sys) && _).
    + apply ReadMetaData_inv; assumption.
    + destruct state; try exact Hinv. apply Enqueue_inv; exact Hinv.
  - exact Hinv.
  - unfold OnCurrentMediaChanged.
    destruct Hinv as [Hs _].
    destruct (Enqueue_resets p_sys Hs) as (_ & Hz & _).
    destruct media as [m|]; [|apply zero_song_inv; exact Hz].
    destruct (negb (v =? 0)); [apply zero_song_inv; exact Hz|].
    destruct (input_item_IsPreparsed m);
      [|apply zero_song_inv; exact Hz].
    apply ReadMetaData_inv; [exact Hok|].
    apply zero_song_inv; exact Hz.
  - exact Hinv.
Qed.

(** [ReadMetaData] is only called on a zeroed current song: from
    [PlayerStateChanged] while the flag is down, and from
    [OnCurrentMediaChanged] right after [Enqueue]. *)
Lemma ReadMetaData_call_sites : forall p_sys,
  capture_inv p_sys ->
  (b_meta_read p_sys = false -> p_current_song p_sys = zero_listen)
  /\ p_current_song
       (set_time_played (set_b_meta_read (Enqueue p_sys) false) 0)
     = zero_listen.
Proof.
  intros p_sys [Hs Hf]. split; [exact Hf|].
  cbn. apply (Enqueue_resets p_sys Hs).
Qed.

(** C7.  [ReadMetaData] on a media item, the current listen being empty
    as it is wherever the function is called: the artist is the album
    artist of the item, or else its artist; when neither gives an artist,
    or the title is missing, the current listen is reset to the empty one
    at once; otherwise every string stored went through the decoding of
    its encoding. *)
Theorem ReadMetaData_captures : forall p_sys item now,
  p_current_song p_sys = zero_listen ->
  ((captured_artist item = None
    \/ sanitized (input_item_GetTitle item) = None) ->
   p_current_song (ReadMetaData p_sys (Some item) now) = zero_listen)
  /\ (forall a t,
        captured_artist item = Some a ->
        sanitized (input_item_GetTitle item) = Some t ->
        p_current_song (ReadMetaData p_sys (Some item) now) =
        mk_listen (Some a) (Some t)
                  (sanitized (input_item_GetAlbum item))
                  (sanitized (input_item_GetTrackNum item))
                  (sanitized (input_item_GetTrackID item))
                  (to_int (SEC_FROM_VLC_TICK (input_item_GetDuration item)))
                  now).
Proof.
  intros p_sys item now Hz.
  unfold ReadMetaData, ReadMetaData_title, captured_artist; cbn.
  rewrite Hz; cbn.
  change sanitized with (RETRIEVE_METADATA None).
  destruct (RETRIEVE_METADATA None (input_item_GetAlbumArtist item))
    as [a1|]; cbn.
  - destruct (RETRIEVE_METADATA None (input_item_GetTitle item))
      as [t1|]; cbn; split.
    + intros [H|H]; discriminate.
    + intros a t [= <-] [= <-]. reflexivity.
    + reflexivity.
    + intros a t _ H; discriminate.
  - destruct (RETRIEVE_METADATA None (input_item_GetArtist item))
      as [a2|]; cbn.
    + destruct (RETRIEVE_METADATA None (input_item_GetTitle item))
        as [t1|]; cbn; split.
      * intros [H|H]; discriminate.
      * intros a t [= <-] [= <-]. reflexivity.
      * reflexivity.
      * intros a t _ H; discriminate.
    + split; [reflexivity|]. intros a t H; discriminate.
Qed.

(** While the flag is up, a state signal other than the stopped one does
    nothing. *)
Lemma PlayerStateChanged_flag_up : forall v state media now p_sys,
  b_meta_read p_sys = true ->
  state <> VLC_PLAYER_STATE_STOPPED ->
  PlayerStateChanged v state media now p_sys = p_sys.
Proof.
  intros v state media now p_sys Hf Hs.
  unfold PlayerStateChanged. rewrite Hf; cbn.
  destruct (negb (v =? 0)); [reflexivity|].
  destruct state; try reflexivity. contradiction.
Qed.

Lemma keeps_flag_event : forall e p_sys,
  b_meta_read p_sys = true -> keeps_flag e ->
  b_meta_read (handle_event e p_sys) = true
  /\ p_current_song (handle_event e p_sys) = p_current_song p_sys
  /\ queue (handle_event e p_sys) = queue p_sys.
Proof.
  intros [v state media now|ts|media v now|] p_sys Hf Hk; cbn in *.
  - rewrite PlayerStateChanged_flag_up by assumption. auto.
  - auto.
  - contradiction.
  - auto.
Qed.

Lemma keeps_flag_events : forall evs p_sys,
  b_meta_read p_sys = true -> Forall keeps_flag evs ->
  b_meta_read (handle_events evs p_sys) = true
  /\ p_current_song (handle_events evs p_sys) = p_current_song p_sys
  /\ queue (handle_events evs p_sys) = queue p_sys.
Proof.
  induction evs as [|e evs IH]; intros p_sys Hf Hall; cbn.
  - auto.
  - inversion Hall as [|? ? He Hrest]; subst.
    destruct (keeps_flag_event e p_sys Hf He) as (Hf1 & Hs1 & Hq1).
    destruct (IH (handle_event e p_sys) Hf1 Hrest) as (Hf2 & Hs2 & Hq2).
    unfold handle_events in *. rewrite Hf2, Hs2, Hq2. auto.
Qed.

(** C9, as the code has it.  [ReadMetaData] on a media item puts the
    metadata flag up whether or not the record is kept (a record that is
    kept is dated [now], one that is rejected is zeroed).  From then on,
    as long as [Enqueue] does not run, that is, until the current media
    changes or the stopped state is signalled, the flag stays up, the
    current listen stays as it is, and a signal of the playing state (or
    of any state but the stopped one) leaves the plugin untouched. *)
Theorem meta_read_flag_blocks_repopulation :
  forall p_sys item now evs,
    Forall keeps_flag evs ->
    let st := ReadMetaData p_sys (Some item) now in
    b_meta_read st = true
    /\ (p_current_song st = zero_listen \/ date (p_current_song st) = now)
    /\ b_meta_read (handle_events evs st) = true
    /\ p_current_song (handle_events evs st) = p_current_song st
    /\ (forall v state media now',
          state <> VLC_PLAYER_STATE_STOPPED ->
          PlayerStateChanged v state media now' (handle_events evs st)
          = handle_events evs st).
Proof.
  intros p_sys item now evs Hall st.
  assert (Hf : b_meta_read st = true) by apply ReadMetaData_flag.
  destruct (keeps_flag_events evs st Hf Hall) as (Hf' & Hs' & _).
  split; [exact Hf|]. split.
  - subst st.
    destruct (ReadMetaData_shape p_sys item now) as (song & -> & Hsong).
    cbn. destruct Hsong as [->|(Hd & _)]; auto.
  - split; [exact Hf'|]. split; [exact Hs'|].
    intros v state media now' Hstate.
    apply PlayerStateChanged_flag_up; assumption.
Qed.

(** ** Payload builder: properties *)

Lemma string_append_assoc : forall a b c : string,
  ((a ++ b) ++ c)%string = (a ++ (b ++ c))%string.
Proof.
  induction a as [|ch a IH]; intros b c; cbn; [reflexivity|].
  rewrite IH. reflexivity.
Qed.

Lemma string_append_empty_r : forall a : string,
  (a ++ EmptyString)%string = a.
Proof.
  induction a as [|ch a IH]; cbn; [reflexivity|]. rewrite IH. reflexivity.
Qed.

Lemma prefix_append : forall p x : string,
  String.prefix p (p ++ x) = true.
Proof.
  induction p as [|ch p IH]; intros x; cbn.
  - destruct x; reflexivity.
  - destruct (ascii_dec ch ch) as [_|Hne]; [apply IH|contradiction].
Qed.

(** The text of a song is appended to what the stream holds. *)
Lemma PreparePayload_song_append : forall payload p_song,
  PreparePayload_song payload p_song
  = (payload ++ PreparePayload_song EmptyString p_song)%string.
Proof.
  intros payload p_song. unfold PreparePayload_song, vlc_memstream_printf.
  destruct (negb (EMPTY_STR (psz_album p_song)));
    destruct (negb (EMPTY_STR (psz_musicbrainz_recording_id p_song)));
    cbn [String.append]; rewrite ?string_append_assoc; reflexivity.
Qed.

(** The loop of [PreparePayload] writes the texts of the songs in the
    order of the queue, with nothing between two of them. *)
Lemma PreparePayload_loop : forall q payload,
  fold_left PreparePayload_song q payload
  = (payload
       ++ String.concat EmptyString
            (map (PreparePayload_song EmptyString) q))%string.
Proof.
  induction q as [|p_song q IH]; intros payload; cbn [fold_left map].
  - cbn. rewrite string_append_empty_r. reflexivity.
  - rewrite IH, PreparePayload_song_append, string_append_assoc.
    f_equal. destruct q as [|p_song' q]; cbn [map String.concat].
    + rewrite string_append_empty_r. reflexivity.
    + reflexivity.
Qed.

(** The whole text of the payload. *)
Lemma PreparePayload_text : forall p_sys,
  PreparePayload true p_sys =
  Some ((if (List.length (queue p_sys) =? 1)%nat
         then listen_type_single else listen_type_import)
          ++ String.concat EmptyString
               (map (PreparePayload_song EmptyString) (queue p_sys))
          ++ "]}")%string.
Proof.
  intros p_sys. unfold PreparePayload, vlc_memstream_printf.
  rewrite PreparePayload_loop. f_equal.
  destruct (List.length (queue p_sys) =? 1)%nat; cbn [String.append];
    rewrite string_append_assoc; reflexivity.
Qed.

(** C6.  The payload opens with the ["listen_type":"single"] field if and
    only if the queue holds exactly one record, and with
    ["listen_type":"import"] for every other size of the queue. *)
Theorem listen_type_single_iff_one_record :
  forall memstream_ok p_sys payload,
    PreparePayload memstream_ok p_sys = Some payload ->
    (String.prefix listen_type_single payload = true
     <-> List.length (queue p_sys) = 1%nat)
    /\ (String.prefix listen_type_import payload = true
        <-> List.length (queue p_sys) <> 1%nat).
Proof.
  intros ok p_sys payload H.
  destruct ok; [|discriminate].
  rewrite PreparePayload_text in H. injection H as <-.
  destruct (Nat.eqb_spec (List.length (queue p_sys)) 1) as [Hone|Hother].
  - split.
    + split; [intros _; exact Hone | intros _; apply prefix_append].
    + split; [intros H; discriminate | intros H; contradiction].
  - split.
    + split; [intros H; discriminate | intros H; contradiction].
    + split; [intros _; exact Hother | intros _; apply prefix_append].
Qed.

(** The builder returns a text whenever the memory stream works. *)
Lemma PreparePayload_total : forall p_sys,
  exists payload, PreparePayload true p_sys = Some payload.
Proof. intros p_sys. rewrite PreparePayload_text. eexists; reflexivity. Qed.

(** The payload of one record that has an album is a JSON text: an object
    with the two members, the array holding one element. *)
Example PreparePayload_with_album_parses :
  PreparePayload true (plugin_with_queue [listen_with_album])
  = Some (listen_type_single ++ text_with_album ++ "]}")%string
  /\ Json.parse (listen_type_single ++ text_with_album ++ "]}")
     = Json.Parsed
         (Json.Object
            [("listen_type"%string, Json.Str "single");
             ("payload"%string,
              Json.Array
                [Json.Object
                   [("listened_at"%string, Json.Number "1600000000");
                    ("track_metadata"%string,
                     Json.Object
                       [("artist_name"%string, Json.Str "X");
                        ("track_name"%string, Json.Str "Y");
                        ("release_name"%string, Json.Str "A")])]])])
         [].
Proof. split; vm_compute; reflexivity. Qed.

(** C3, at a queue of one record without an album (and at a queue of two
    records): the text that [PreparePayload] returns is not a JSON text.
    Without an album the [track_name] member is followed by a comma and
    the closing brace; two elements of the array have no comma between
    them. *)
Theorem PreparePayload_not_json :
  PreparePayload true (plugin_with_queue [listen_without_album])
  = Some (listen_type_single ++ text_without_album ++ "]}")%string
  /\ Json.parse (listen_type_single ++ text_without_album ++ "]}")
     = Json.SyntaxError
  /\ PreparePayload true
       (plugin_with_queue [listen_with_album; listen_with_album])
     = Some (listen_type_import ++ text_with_album ++ text_with_album
               ++ "]}")%string
  /\ Json.parse (listen_type_import ++ text_with_album ++ text_with_album
                   ++ "]}")
     = Json.SyntaxError.
Proof. repeat split; vm_compute; reflexivity. Qed.

(** ** Request sender: properties *)

Lemma byte_eqb_refl : forall x, Byte.eqb x x = true.
Proof. intros x. apply Byte.byte_dec_lb. reflexivity. Qed.

Lemma byte_eqb_neq : forall x y, x <> y -> Byte.eqb x y = false.
Proof.
  intros x y H. destruct (Byte.eqb x y) eqn:E; [|reflexivity].
  apply Byte.byte_dec_bl in E. contradiction.
Qed.

Lemma first_line_no_line_feed : forall l, ~ In CStr.LF (first_line l).
Proof.
  induction l as [|b l IH]; cbn; [prop_tauto|].
  destruct (Byte.eqb b CStr.LF) eqn:E; cbn; [prop_tauto|].
  intros [H|H]; [|exact (IH H)].
  subst b. rewrite byte_eqb_refl in E. discriminate.
Qed.

Lemma first_line_split : forall l,
  In CStr.LF l -> exists tail, l = first_line l ++ CStr.LF :: tail.
Proof.
  induction l as [|b l IH]; cbn; [prop_tauto|].
  intros H. destruct (Byte.eqb b CStr.LF) eqn:E.
  - apply Byte.byte_dec_bl in E. subst b. exists l. reflexivity.
  - destruct H as [H|H].
    + subst b. rewrite byte_eqb_refl in E. discriminate.
    + destruct (IH H) as [tail Htail]. exists tail. cbn.
      rewrite <- Htail. reflexivity.
Qed.

Lemma store_at_length : forall (l : list byte) b rest c,
  CStr.store (l ++ b :: rest) (List.length l) c = l ++ c :: rest.
Proof.
  induction l as [|x l IH]; intros b rest c; cbn; [reflexivity|].
  rewrite IH. reflexivity.
Qed.

Lemma strchr_found : forall line rest c,
  ~ In c line -> ~ In CStr.NUL line ->
  CStr.strchr (line ++ c :: rest) c = Some (List.length line).
Proof.
  induction line as [|b line IH]; intros rest c Hc Hn; cbn.
  - rewrite byte_eqb_refl. reflexivity.
  - cbn in Hc, Hn.
    rewrite (byte_eqb_neq b c) by prop_tauto.
    rewrite (byte_eqb_neq b CStr.NUL) by prop_tauto.
    rewrite IH by prop_tauto. reflexivity.
Qed.

(** Without a line feed before the terminator, the search returns the
    null pointer. *)
Lemma strchr_not_found : forall got rest,
  ~ In CStr.LF got ->
  CStr.strchr (CStr.store (got ++ rest) (List.length got) CStr.NUL) CStr.LF
  = None.
Proof.
  induction got as [|b got IH]; intros rest Hlf; cbn.
  - destruct rest as [|r rest]; reflexivity.
  - cbn in Hlf. rewrite (byte_eqb_neq b CStr.LF) by prop_tauto.
    destruct (Byte.eqb b CStr.NUL); [reflexivity|].
    rewrite IH by prop_tauto. reflexivity.
Qed.

Lemma contains_cons : forall needle b l,
  CStr.contains needle (b :: l) <->
  (exists post, b :: l = needle ++ post) \/ CStr.contains needle l.
Proof.
  intros needle b l. unfold CStr.contains. split.
  - intros (pre & post & H). destruct pre as [|p pre]; cbn in H.
    + left. exists post. exact H.
    + right. injection H as _ H. exists pre, post. exact H.
  - intros [(post & H)|(pre & post & H)].
    + exists [], post. exact H.
    + exists (b :: pre), post. cbn. rewrite H. reflexivity.
Qed.

Lemma starts_with_spec : forall needle line rest,
  ~ In CStr.NUL line ->
  (CStr.starts_with needle (line ++ CStr.NUL :: rest) = true
   <-> exists post, line = needle ++ post).
Proof.
  induction needle as [|n needle IH]; intros line rest Hn; cbn.
  - split; [intros _; exists line; reflexivity | reflexivity].
  - destruct line as [|b line]; cbn.
    + rewrite andb_false_r. cbn.
      split; [discriminate | intros (post & H); discriminate].
    + cbn in Hn. rewrite (byte_eqb_neq b CStr.NUL) by prop_tauto. cbn.
      rewrite andb_true_r. rewrite andb_true_iff, IH by prop_tauto.
      split.
      * intros (Hb & post & ->). apply Byte.byte_dec_bl in Hb.
        subst. exists post. reflexivity.
      * intros (post & H). injection H as -> ->.
        split; [apply byte_eqb_refl | exists post; reflexivity].
Qed.

(** [strstr] finds the needle in a terminated C string exactly when the
    string holds it. *)
Lemma strstr_spec : forall needle line rest,
  ~ In CStr.NUL line ->
  ((exists k, CStr.strstr (line ++ CStr.NUL :: rest) needle = Some k)
   <-> CStr.contains needle line).
Proof.
  intros needle. induction line as [|b line IH]; intros rest Hn.
  - cbn [app CStr.strstr].
    destruct (CStr.starts_with needle (CStr.NUL :: rest)) eqn:E.
    + apply (starts_with_spec needle [] rest Hn) in E.
      destruct E as (post & E).
      split; [intros _; exists [], post; exact E | intros _; eexists; reflexivity].
    + cbn. split; [intros (k & H); discriminate|].
      intros (pre & post & H).
      assert (Hs : exists post, @nil byte = needle ++ post).
      { destruct pre; [|discriminate]. exists post. exact H. }
      apply (starts_with_spec needle [] rest Hn) in Hs.
      cbn in Hs. congruence.
  - cbn [app CStr.strstr]. rewrite contains_cons.
    change (b :: line ++ CStr.NUL :: rest)
      with ((b :: line) ++ CStr.NUL :: rest).
    destruct (CStr.starts_with needle ((b :: line) ++ CStr.NUL :: rest))
      eqn:E.
    + apply (starts_with_spec needle (b :: line) rest Hn) in E.
      split; [intros _; left; exact E | intros _; eexists; reflexivity].
    + cbn in Hn. rewrite (byte_eqb_neq b CStr.NUL) by prop_tauto.
      assert (IH' := IH rest ltac:(prop_tauto)).
      split.
      * intros (k & H). right. apply IH'.
        destruct (CStr.strstr (line ++ CStr.NUL :: rest) needle) as [k'|];
          [eexists; reflexivity | discriminate].
      * intros [Hs|Hc].
        -- apply (starts_with_spec needle (b :: line) rest) in Hs;
             [congruence | cbn; prop_tauto].
        -- apply IH' in Hc. destruct Hc as (k & ->).
           eexists; reflexivity.
Qed.

Lemma skipn_inside : forall (n : nat) (l : list byte),
  (n < List.length l)%nat -> exists b rest, skipn n l = b :: rest.
Proof.
  induction n as [|n IH]; intros [|x l] H; cbn in *; try lia.
  - exists x, l. reflexivity.
  - apply IH. lia.
Qed.

(** [SendRequest] once the socket is open and the request written: the
    bytes read decide. *)
Lemma SendRequest_read : forall net p_buffer request data,
  tls_open net = true -> tls_write net <> -1 ->
  tls_incoming net = Some data ->
  SendRequest net p_buffer request =
  match firstn 1023 data with
  | [] => Returns VLC_EGENERIC
  | _ :: _ =>
      let p_buffer :=
        CStr.store
          (firstn 1023 data
             ++ skipn (List.length (firstn 1023 data)) p_buffer)
          (List.length (firstn 1023 data)) CStr.NUL in
      match CStr.strchr p_buffer CStr.LF with
      | None => NullDereference
      | Some status =>
          match CStr.strstr (CStr.store p_buffer status CStr.NUL)
                            status_200 with
          | Some _ => Returns VLC_SUCCESS
          | None => Returns VLC_EGENERIC
          end
      end
  end.
Proof.
  intros net p_buffer request data Hopen Hwrite Hin.
  unfold SendRequest, vlc_tls_Read. rewrite Hopen, Hin.
  cbv beta iota delta [negb].
  destruct (Z.eqb_spec (tls_write net) (-1)) as [|_]; [contradiction|].
  change (1024 - 1)%nat with 1023%nat.
  destruct (firstn 1023 data) as [|b response] eqn:E.
  - reflexivity.
  - destruct (Z.leb_spec (Z.of_nat (List.length (b :: response))) 0)
      as [Hle|_].
    + cbn [List.length] in Hle. lia.
    + rewrite Nat2Z.id. reflexivity.
Qed.

(** [SendRequest] on a response with a status line: the search for
    ["200"] in that line decides. *)
Lemma SendRequest_status_line :
  forall net p_buffer request data line tail,
    List.length p_buffer = 1024%nat ->
    tls_open net = true -> tls_write net <> -1 ->
    tls_incoming net = Some data ->
    firstn 1023 data = line ++ CStr.LF :: tail ->
    ~ In CStr.LF line -> ~ In CStr.NUL line ->
    exists rest,
      SendRequest net p_buffer request =
      match CStr.strstr (line ++ CStr.NUL :: rest) status_200 with
      | Some _ => Returns VLC_SUCCESS
      | None => Returns VLC_EGENERIC
      end.
Proof.
  intros net p_buffer request data line tail Hlen Hopen Hwrite Hin
         Hresp Hlf Hnul.
  rewrite (SendRequest_read net p_buffer request data Hopen Hwrite Hin).
  assert (Hshort : (List.length (firstn 1023 data) < List.length p_buffer)%nat).
  { rewrite Hlen. pose proof (List.firstn_le_length 1023 data). lia. }
  destruct (skipn_inside _ _ Hshort) as (b & rest & ->).
  rewrite store_at_length. rewrite Hresp.
  exists (tail ++ CStr.NUL :: rest). cbv zeta.
  rewrite <- app_assoc.
  change ((CStr.LF :: tail) ++ CStr.NUL :: rest)
    with (CStr.LF :: (tail ++ CStr.NUL :: rest)).
  rewrite strchr_found by assumption.
  rewrite store_at_length.
  destruct line; reflexivity.
Qed.

(** [SendRequest] on a response that holds no line feed: the pointer that
    [strchr] returns is null when [*status = 0] stores through it. *)
Lemma SendRequest_without_line_feed :
  forall net p_buffer request data,
    tls_open net = true -> tls_write net <> -1 ->
    tls_incoming net = Some data ->
    firstn 1023 data <> [] ->
    ~ In CStr.LF (firstn 1023 data) ->
    SendRequest net p_buffer request = NullDereference.
Proof.
  intros net p_buffer request data Hopen Hwrite Hin Hne Hlf.
  rewrite (SendRequest_read net p_buffer request data Hopen Hwrite Hin).
  destruct (firstn 1023 data) as [|b response] eqn:E; [contradiction|].
  cbv zeta. rewrite strchr_not_found by assumption. reflexivity.
Qed.

(** Where [SendRequest] returns.  It returns [VLC_EGENERIC] when the
    socket cannot be opened, when the write fails and when nothing is
    read.  For a response that has a status line (a first line ended by a
    line feed among the bytes read, no NUL before it), it returns
    [VLC_SUCCESS] if and only if that line holds ["200"], and
    [VLC_EGENERIC], the result of the transport failures, for every
    other status line, 401 included. *)
Theorem SendRequest_success_iff_200 :
  forall net p_buffer request,
    List.length p_buffer = 1024%nat ->
    ((tls_open net = false \/ tls_write net = -1
      \/ tls_incoming net = None \/ tls_incoming net = Some []) ->
     SendRequest net p_buffer request = Returns VLC_EGENERIC)
    /\ (forall data,
          tls_open net = true -> tls_write net <> -1 ->
          tls_incoming net = Some data ->
          In CStr.LF (firstn 1023 data) ->
          ~ In CStr.NUL (first_line (firstn 1023 data)) ->
          (SendRequest net p_buffer request = Returns VLC_SUCCESS
           <-> CStr.contains status_200 (first_line (firstn 1023 data)))
          /\ (~ CStr.contains status_200 (first_line (firstn 1023 data))
              -> SendRequest net p_buffer request = Returns VLC_EGENERIC)).
Proof.
  intros net p_buffer request Hlen. split.
  - intros Hfail. unfold SendRequest.
    destruct (tls_open net); [|reflexivity]. cbn [negb].
    destruct (Z.eqb_spec (tls_write net) (-1)) as [|Hw]; [reflexivity|].
    destruct Hfail as [H|[H|[H|H]]]; try discriminate; try contradiction;
      rewrite H; reflexivity.
  - intros data Hopen Hwrite Hin Hlf Hnul.
    destruct (first_line_split _ Hlf) as (tail & Hsplit).
    pose proof (first_line_no_line_feed (firstn 1023 data)) as Hno.
    destruct (SendRequest_status_line net p_buffer request data
                (first_line (firstn 1023 data)) tail
                Hlen Hopen Hwrite Hin Hsplit Hno Hnul) as (rest & ->).
    pose proof (strstr_spec status_200 (first_line (firstn 1023 data))
                  rest Hnul) as Hspec.
    destruct (CStr.strstr
                (first_line (firstn 1023 data) ++ CStr.NUL :: rest)
                status_200) as [k|].
    + split.
      * split; [intros _; apply Hspec; eexists; reflexivity
               | reflexivity].
      * intros Hnot. exfalso. apply Hnot, Hspec. eexists; reflexivity.
    + split.
      * split; [discriminate|].
        intros Hc. apply Hspec in Hc. destruct Hc as (k & Hk).
        discriminate.
      * reflexivity.
Qed.

(** C4, at responses that stop before the end of their status line.  The
    15 bytes [HTTP/1.1 200 OK]: the first line holds ["200"], and
    [SendRequest] does not report success.  The 25 bytes
    [HTTP/1.1 401 UNAUTHORIZED]: the first line does not hold ["200"], and
    [SendRequest] does not report the failure.  At both it returns no
    result at all: it stores through the null pointer of [strchr],
    whatever the local array held. *)
Theorem SendRequest_status_without_line_feed : forall p_buffer request,
  CStr.contains status_200 (first_line response_without_line_feed)
  /\ ~ CStr.contains status_200 (first_line response_401_without_line_feed)
  /\ (forall ret,
        SendRequest (mk_tls true 15 (Some response_without_line_feed))
                    p_buffer request
        <> Returns ret)
  /\ (forall ret,
        SendRequest (mk_tls true 25 (Some response_401_without_line_feed))
                    p_buffer request
        <> Returns ret).
Proof.
  intros p_buffer request.
  assert (H200 : SendRequest
                   (mk_tls true 15 (Some response_without_line_feed))
                   p_buffer request = NullDereference).
  { apply (SendRequest_without_line_feed _ _ _ response_without_line_feed).
    - reflexivity.
    - cbn. discriminate.
    - reflexivity.
    - cbn. discriminate.
    - cbn. intros H.
      repeat (destruct H as [H|H]; [discriminate|]). exact H. }
  assert (H401 : SendRequest
                   (mk_tls true 25 (Some response_401_without_line_feed))
                   p_buffer request = NullDereference).
  { apply (SendRequest_without_line_feed _ _ _
             response_401_without_line_feed).
    - reflexivity.
    - cbn. discriminate.
    - reflexivity.
    - cbn. discriminate.
    - cbn. intros H.
      repeat (destruct H as [H|H]; [discriminate|]). exact H. }
  split; [|split; [|split]].
  - exists (list_byte_of_string "HTTP/1.1 "), (list_byte_of_string " OK").
    reflexivity.
  - intros Hc.
    assert (Hnul : ~ In CStr.NUL (first_line response_401_without_line_feed)).
    { cbn. intros H.
      repeat (destruct H as [H|H]; [discriminate|]). exact H. }
    apply (strstr_spec status_200 _ [] Hnul) in Hc.
    destruct Hc as (k & Hk). vm_compute in Hk. discriminate Hk.
  - intros ret. rewrite H200. discriminate.
  - intros ret. rewrite H401. discriminate.
Qed.

(** C10, at a response of 15 bytes with no line feed in it: whatever the
    local array held, [strchr] returns the null pointer and [SendRequest]
    stores through it. *)
Theorem SendRequest_null_dereference : forall p_buffer request,
  SendRequest (mk_tls true 15 (Some response_without_line_feed))
              p_buffer request
  = NullDereference.
Proof.
  intros p_buffer request.
  apply (SendRequest_without_line_feed _ _ _ response_without_line_feed).
  - reflexivity.
  - cbn. discriminate.
  - reflexivity.
  - cbn. discriminate.
  - cbn. intros H.
    repeat (destruct H as [H|H]; [discriminate|]). exact H.
Qed.

(** ** Submission thread: properties *)

Lemma Enqueue_queue : forall p_sys,
  exists pushed, queue (Enqueue p_sys) = queue p_sys ++ pushed.
Proof.
  intros p_sys. unfold Enqueue.
  destruct p_sys as [q l u t [a ti al tn id len d] b tp]; cbn.
  destruct (d =? 0); [exists []; cbn; symmetry; apply app_nil_r|].
  destruct (EMPTY_STR a || EMPTY_STR ti);
    [exists []; cbn; symmetry; apply app_nil_r|].
  destruct (len =? 0); cbn; destruct (tp <? 30); cbn;
    try (exists []; cbn; symmetry; apply app_nil_r);
    eexists; reflexivity.
Qed.

Lemma Enqueue_live : forall p_sys, live (Enqueue p_sys) = live p_sys.
Proof.
  intros p_sys. unfold Enqueue.
  destruct p_sys as [q l u t [a ti al tn id len d] b tp]; cbn.
  destruct (d =? 0); [reflexivity|].
  destruct (EMPTY_STR a || EMPTY_STR ti); [reflexivity|].
  destruct (len =? 0); cbn; destruct (tp <? 30); reflexivity.
Qed.

(** A callback leaves what the queue holds where it is and may append to
    it. *)
Lemma handle_event_queue : forall e p_sys,
  exists pushed, queue (handle_event e p_sys) = queue p_sys ++ pushed.
Proof.
  assert (Hsame : forall q : list listen_t, exists pushed, q = q ++ pushed).
  { intros q. exists []. symmetry. apply app_nil_r. }
  intros [v state media now|ts|media v now|] p_sys; cbn.
  - unfold PlayerStateChanged.
    destruct (negb (v =? 0)); [apply Hsame|].
    destruct (negb (b_meta_read p_sys) && _).
    + rewrite (proj1 (ReadMetaData_queue p_sys media now)). apply Hsame.
    + destruct state; try apply Hsame. apply Enqueue_queue.
  - apply Hsame.
  - unfold OnCurrentMediaChanged.
    destruct media as [m|]; [|apply Enqueue_queue].
    destruct (negb (v =? 0)); [apply Enqueue_queue|].
    destruct (input_item_IsPreparsed m); [|apply Enqueue_queue].
    rewrite (proj1 (ReadMetaData_queue _ _ _)). apply Enqueue_queue.
  - apply Hsame.
Qed.

(** Only [Close] touches the liveness flag. *)
Lemma handle_event_live : forall e p_sys,
  e <> EvClose -> live (handle_event e p_sys) = live p_sys.
Proof.
  intros [v state media now|ts|media v now|] p_sys Hne; cbn.
  - unfold PlayerStateChanged.
    destruct (negb (v =? 0)); [reflexivity|].
    destruct (negb (b_meta_read p_sys) && _).
    + apply ReadMetaData_queue.
    + destruct state; try reflexivity. apply Enqueue_live.
  - reflexivity.
  - unfold OnCurrentMediaChanged.
    destruct media as [m|]; [|apply Enqueue_live].
    destruct (negb (v =? 0)); [apply Enqueue_live|].
    destruct (input_item_IsPreparsed m); [|apply Enqueue_live].
    rewrite (proj2 (ReadMetaData_queue _ _ _)). apply Enqueue_live.
  - contradiction.
Qed.

(** Nothing puts the liveness flag up again. *)
Lemma handle_event_dead : forall e p_sys,
  live p_sys = false -> live (handle_event e p_sys) = false.
Proof.
  intros e p_sys H. destruct e as [v state media now|ts|media v now|];
    try (rewrite handle_event_live by discriminate; exact H).
  reflexivity.
Qed.

Lemma handle_events_dead : forall evs p_sys,
  live p_sys = false -> live (handle_events evs p_sys) = false.
Proof.
  induction evs as [|e evs IH]; intros p_sys H; cbn; [exact H|].
  apply IH. apply handle_event_dead. exact H.
Qed.

Lemma handle_events_app : forall evs1 evs2 p_sys,
  handle_events (evs1 ++ evs2) p_sys
  = handle_events evs2 (handle_events evs1 p_sys).
Proof. intros. unfold handle_events. apply fold_left_app. Qed.

Lemma run_app : forall acts1 acts2 s,
  run (acts1 ++ acts2) s = run acts2 (run acts1 s).
Proof. intros. unfold run. apply fold_left_app. Qed.

(** Callbacks move neither the submission thread nor the log. *)
Lemma run_events : forall evs s,
  run (map ActEvent evs) s
  = mk_system (handle_events evs (sys s)) (pc s) (attempts s).
Proof.
  induction evs as [|e evs IH]; intros s; cbn.
  - destruct s; reflexivity.
  - unfold run in IH. rewrite IH. reflexivity.
Qed.

(** The thread submits only from a queue that holds something. *)
Lemma Run_work_wait_send : forall i p_sys request,
  Run_work_wait i p_sys = PcSend request -> queue p_sys <> [].
Proof.
  intros i p_sys request. unfold Run_work_wait.
  destruct (live p_sys); cbn.
  - destruct (queue p_sys); cbn; [discriminate|]. intros _. discriminate.
  - discriminate.
Qed.

Lemma Run_loop_top_send : forall i b_wait p_sys request,
  Run_loop_top i b_wait p_sys = PcSend request -> queue p_sys <> [].
Proof.
  intros i b_wait p_sys request. unfold Run_loop_top, Run_backoff.
  destruct b_wait; [|apply Run_work_wait_send].
  destruct (live p_sys && (0 =? 0)); [discriminate|].
  apply Run_work_wait_send.
Qed.

Lemma worker_step_send : forall i at_pc p_sys request p_sys',
  (forall r, at_pc = PcSend r -> queue p_sys <> []) ->
  worker_step i at_pc p_sys = (PcSend request, p_sys') ->
  queue p_sys' <> [].
Proof.
  intros i at_pc p_sys request p_sys' Hne.
  destruct at_pc as [|deadline| |r| | |]; cbn.
  - intros [= H <-]. exact (Run_work_wait_send _ _ _ H).
  - intros [= H <-]. unfold Run_backoff in H.
    destruct (live p_sys && _); [discriminate|].
    exact (Run_work_wait_send _ _ _ H).
  - intros [= H <-]. exact (Run_work_wait_send _ _ _ H).
  - destruct (SendRequest (in_net i) (in_stack i) r) as [ret|];
      [|discriminate].
    destruct (Run_after_send ret p_sys) as [b_wait st] eqn:E.
    intros [= H <-]. exact (Run_loop_top_send _ _ _ _ H).
  - discriminate.
  - discriminate.
  - discriminate.
Qed.

(** While a request is out, the queue holds something. *)
Lemma reachable_send_queue : forall s,
  reachable s -> forall request, pc s = PcSend request ->
  queue (sys s) <> [].
Proof.
  induction 1 as [token url p_sys Hopen|s a Hreach IH Hok];
    intros request Hpc; [discriminate|].
  destruct a as [e|i]; cbn in *.
  - destruct (handle_event_queue e (sys s)) as (pushed & ->).
    intros Happ. apply app_eq_nil in Happ.
    exact (IH request Hpc (proj1 Happ)).
  - destruct (worker_step i (pc s) (sys s)) as [pc1 st1] eqn:E.
    cbn in *. subst pc1.
    exact (worker_step_send i (pc s) (sys s) request st1 IH E).
Qed.

(** From [Open] on, the zero date marks an empty current song and the
    current song is filled only while the flag is up. *)
Lemma reachable_capture_inv : forall s,
  reachable s -> capture_inv (sys s).
Proof.
  induction 1 as [token url p_sys Hopen|s a Hreach IH Hok].
  - unfold Open in Hopen. destruct (EMPTY_STR token); [discriminate|].
    injection Hopen as <-. apply zero_song_inv. reflexivity.
  - destruct a as [e|i]; cbn.
    + apply handle_event_inv; assumption.
    + destruct (pc s) as [|deadline| |r| | |]; cbn; try exact IH.
      destruct (SendRequest (in_net i) (in_stack i) r) as [[|]|]; cbn;
        exact IH.
Qed.

(** The shared structure after the thread took its step from a request
    that was out. *)
Lemma worker_step_after_send : forall i request p_sys ret,
  SendRequest (in_net i) (in_stack i) request = Returns ret ->
  snd (worker_step i (PcSend request) p_sys)
  = snd (Run_after_send ret p_sys)
  /\ fst (worker_step i (PcSend request) p_sys)
     = Run_loop_top i (fst (Run_after_send ret p_sys))
                    (snd (Run_after_send ret p_sys)).
Proof.
  intros i request p_sys ret H. cbn. rewrite H.
  destruct (Run_after_send ret p_sys); split; reflexivity.
Qed.

Lemma system_step_sys : forall i s,
  sys (system_step (ActWorker i) s) = snd (worker_step i (pc s) (sys s))
  /\ pc (system_step (ActWorker i) s) = fst (worker_step i (pc s) (sys s)).
Proof.
  intros i s. cbn. destruct (worker_step i (pc s) (sys s)).
  split; reflexivity.
Qed.

(** A step that is not the end of a successful submission keeps what the
    queue holds, in place. *)
Lemma step_keeps_queue : forall a s,
  submission_succeeds a s = false ->
  exists pushed, queue (sys (system_step a s)) = queue (sys s) ++ pushed.
Proof.
  intros [e|i] s Hno.
  - cbn. apply handle_event_queue.
  - rewrite (proj1 (system_step_sys i s)).
    exists []. rewrite app_nil_r.
    unfold submission_succeeds in Hno.
    destruct (pc s) as [|deadline| |r| | |]; cbn; try reflexivity.
    destruct (SendRequest (in_net i) (in_stack i) r) as [[|]|];
      cbn; try reflexivity. discriminate.
Qed.

Lemma run_keeps_queue : forall acts s,
  no_success acts s ->
  exists pushed, queue (sys (run acts s)) = queue (sys s) ++ pushed.
Proof.
  induction acts as [|a acts IH]; intros s Hno; cbn.
  - exists []. symmetry. apply app_nil_r.
  - destruct Hno as [Ha Hrest].
    destruct (step_keeps_queue a s Ha) as (p1 & H1).
    destruct (IH (system_step a s) Hrest) as (p2 & H2).
    exists (p1 ++ p2). unfold run in H2. rewrite H2, H1.
    symmetry. apply app_assoc.
Qed.

(** When the submission thread comes back from [SendRequest] (in any
    state of the plugin that can be reached from [Open]), the queue is
    emptied if and only if [SendRequest] returned success; after any other
    result the shared structure is what it was.  Over any run in which no
    submission succeeds, the records that were in the queue stay in it, in
    place, and what the callbacks push meanwhile comes after them. *)
Theorem queue_cleared_iff_submission_succeeded : forall s,
  reachable s ->
  (forall request i ret,
      pc s = PcSend request ->
      SendRequest (in_net i) (in_stack i) request = Returns ret ->
      (queue (sys (system_step (ActWorker i) s)) = [] <-> ret = VLC_SUCCESS)
      /\ (ret <> VLC_SUCCESS -> sys (system_step (ActWorker i) s) = sys s))
  /\ (forall acts,
        no_success acts s ->
        exists pushed,
          queue (sys (run acts s)) = queue (sys s) ++ pushed).
Proof.
  intros s Hreach. split; [|intros acts; apply run_keeps_queue].
  intros request i ret Hpc Hsend.
  pose proof (reachable_send_queue s Hreach request Hpc) as Hne.
  rewrite (proj1 (system_step_sys i s)), Hpc.
  rewrite (proj1 (worker_step_after_send i request (sys s) ret Hsend)).
  destruct ret; cbn.
  - split; [split; reflexivity | intros H; contradiction].
  - split; [split; [intros H; contradiction | discriminate]
           | reflexivity].
Qed.

(** A request goes out only when the thread reaches [SendRequest]. *)
Lemma waiting_adds_no_attempt : forall i s deadline,
  pc (system_step (ActWorker i) s) = PcTimedWait deadline ->
  attempts (system_step (ActWorker i) s) = attempts s.
Proof.
  intros i s deadline. cbn.
  destruct (worker_step i (pc s) (sys s)) as [pc1 st1]; cbn.
  intros ->. cbn. apply app_nil_r.
Qed.

(** During the backoff, signals and callbacks keep the thread waiting for
    the same deadline. *)
Lemma backoff_survives_signals : forall acts s deadline,
  pc s = PcTimedWait deadline ->
  live (sys s) = true ->
  Forall signal_or_push acts ->
  pc (run acts s) = PcTimedWait deadline
  /\ attempts (run acts s) = attempts s
  /\ live (sys (run acts s)) = true.
Proof.
  induction acts as [|a acts IH]; intros s deadline Hpc Hlive Hall.
  - cbn. auto.
  - inversion Hall as [|? ? Ha Hrest]; subst.
    assert (Hstep : pc (system_step a s) = PcTimedWait deadline
                    /\ attempts (system_step a s) = attempts s
                    /\ live (sys (system_step a s)) = true).
    { destruct a as [e|i]; cbn in Ha.
      - cbn. rewrite handle_event_live by exact Ha. auto.
      - assert (Hpc' : pc (system_step (ActWorker i) s)
                       = PcTimedWait deadline).
        { rewrite (proj2 (system_step_sys i s)), Hpc. cbn.
          unfold Run_backoff. rewrite Hlive, Ha. reflexivity. }
        split; [exact Hpc'|].
        split; [exact (waiting_adds_no_attempt i s deadline Hpc')|].
        rewrite (proj1 (system_step_sys i s)), Hpc. exact Hlive. }
    destruct Hstep as (Hpc1 & Hat1 & Hlive1).
    destruct (IH (system_step a s) deadline Hpc1 Hlive1 Hrest)
      as (Hpc2 & Hat2 & Hlive2).
    cbn. unfold run in *. rewrite Hpc2, Hat2, Hat1. auto.
Qed.

(** C5.  After a submission that failed, the thread (if the plugin is
    live) waits with a deadline 60 seconds after the clock it read.  The
    wait ends only when the liveness flag is down or when the deadline is
    reached; returns of [vlc_cond_timedwait] caused by signals, and the
    callbacks that push new records, leave the thread waiting for the
    same deadline, and no request goes out meanwhile. *)
Theorem backoff_ends_on_timeout_or_shutdown_only : forall s i,
  (forall request ret,
      pc s = PcSend request ->
      SendRequest (in_net i) (in_stack i) request = Returns ret ->
      ret <> VLC_SUCCESS ->
      live (sys s) = true ->
      pc (system_step (ActWorker i) s)
      = PcTimedWait (in_tick i + 60 * 1000000))
  /\ (forall deadline,
        pc s = PcTimedWait deadline ->
        (timedwait_contract deadline i ->
         pc (system_step (ActWorker i) s) <> PcTimedWait deadline ->
         live (sys s) = false \/ deadline <= in_tick i)
        /\ (forall acts,
              live (sys s) = true ->
              Forall signal_or_push acts ->
              pc (run acts s) = PcTimedWait deadline
              /\ attempts (run acts s) = attempts s
              /\ live (sys (run acts s)) = true)).
Proof.
  intros s i. split.
  - intros request ret Hpc Hsend Hfail Hlive.
    rewrite (proj2 (system_step_sys i s)), Hpc.
    rewrite (proj2 (worker_step_after_send i request (sys s) ret Hsend)).
    destruct ret; [contradiction|]. cbn.
    unfold Run_backoff. rewrite Hlive. cbn.
    unfold VLC_TICK_FROM_SEC, CLOCK_FREQ.
    first [reflexivity | f_equal; lia].
  - intros deadline Hpc. split.
    + intros Hcontract Hleft.
      rewrite (proj2 (system_step_sys i s)), Hpc in Hleft. cbn in Hleft.
      unfold Run_backoff in Hleft.
      destruct (live (sys s)); [|left; reflexivity].
      destruct (Z.eqb_spec (in_ret i) 0) as [Hz|Hnz]; cbn in Hleft.
      * contradiction.
      * right. exact (Hcontract Hnz).
    + intros acts Hlive Hall.
      exact (backoff_survives_signals acts s deadline Hpc Hlive Hall).
Qed.

(** Once the thread has left its loop it stays out, and sends nothing. *)
Lemma exited_stays : forall acts s,
  pc s = PcExited ->
  pc (run acts s) = PcExited /\ attempts (run acts s) = attempts s.
Proof.
  induction acts as [|a acts IH]; intros s Hpc; cbn; [auto|].
  assert (Hstep : pc (system_step a s) = PcExited
                  /\ attempts (system_step a s) = attempts s).
  { destruct a as [e|i]; cbn; [auto|].
    rewrite Hpc. cbn. split; [reflexivity | apply app_nil_r]. }
  destruct Hstep as (Hpc1 & Hat1).
  destruct (IH (system_step a s) Hpc1) as (Hpc2 & Hat2).
  unfold run in *. rewrite Hpc2, Hat2, Hat1. auto.
Qed.

(** Woken with the liveness flag down, the waiting thread leaves. *)
Lemma wake_when_dead : forall i s,
  (pc s = PcWait \/ exists deadline, pc s = PcTimedWait deadline) ->
  live (sys s) = false ->
  pc (system_step (ActWorker i) s) = PcExited
  /\ attempts (system_step (ActWorker i) s) = attempts s.
Proof.
  intros i s Hpc Hdead. cbn.
  destruct Hpc as [Hpc|(deadline & Hpc)]; rewrite Hpc; cbn;
    unfold Run_backoff, Run_work_wait; rewrite Hdead; cbn;
    split; try reflexivity; apply app_nil_r.
Qed.

(** C8.  The thread is in the backoff wait or in the wait for work;
    [Close] takes the liveness flag down (among any other callbacks) and
    the thread wakes: it leaves its loop, stays out of it, and hands no
    request to [SendRequest] any more, whatever the queue holds. *)
Theorem shutdown_during_wait_exits : forall s evs1 evs2 i,
  (pc s = PcWait \/ exists deadline, pc s = PcTimedWait deadline) ->
  let s' :=
    run (map ActEvent (evs1 ++ EvClose :: evs2) ++ [ActWorker i]) s in
  pc s' = PcExited
  /\ attempts s' = attempts s
  /\ (forall acts,
        pc (run acts s') = PcExited
        /\ attempts (run acts s') = attempts s).
Proof.
  intros s evs1 evs2 i Hpc s'.
  assert (Hwoken : pc s' = PcExited /\ attempts s' = attempts s).
  { subst s'. rewrite run_app, run_events.
    change (run [ActWorker i] ?x) with (system_step (ActWorker i) x).
    apply (wake_when_dead i (mk_system _ (pc s) (attempts s))).
    - exact Hpc.
    - cbn [sys]. rewrite handle_events_app.
      change (handle_events (EvClose :: evs2) ?x)
        with (handle_events evs2 (Close x)).
      apply handle_events_dead. reflexivity. }
  destruct Hwoken as (Hpc' & Hat').
  split; [exact Hpc'|]. split; [exact Hat'|].
  intros acts. destruct (exited_stays acts s' Hpc') as (H1 & H2).
  split; [exact H1 | congruence].
Qed.

(** ** Further properties of the listen capture *)

Lemma Enqueue_queued_ok : forall p_sys,
  Forall queued_ok (queue p_sys) ->
  Forall queued_ok (queue (Enqueue p_sys)).
Proof.
  intros p_sys Hq. unfold Enqueue.
  destruct p_sys as [q l u t [a ti al tn id len d] b tp]; cbn in *.
  destruct (Z.eqb_spec d 0) as [|Hd]; [exact Hq|].
  destruct (EMPTY_STR a) eqn:Ea; cbn; [exact Hq|].
  destruct (EMPTY_STR ti) eqn:Et; cbn; [exact Hq|].
  destruct (len =? 0); cbn; destruct (tp <? 30); cbn; try exact Hq;
    (apply Forall_app; split; [exact Hq|]; constructor; [|constructor];
     repeat split; assumption).
Qed.

Lemma handle_event_queued_ok : forall e p_sys,
  Forall queued_ok (queue p_sys) ->
  Forall queued_ok (queue (handle_event e p_sys)).
Proof.
  intros [v state media now|ts|media v now|] p_sys Hq; cbn.
  - unfold PlayerStateChanged.
    destruct (negb (v =? 0)); [exact Hq|].
    destruct (negb (b_meta_read p_sys) && _).
    + rewrite (proj1 (ReadMetaData_queue p_sys media now)). exact Hq.
    + destruct state; try exact Hq. apply Enqueue_queued_ok. exact Hq.
  - exact Hq.
  - unfold OnCurrentMediaChanged.
    pose proof (Enqueue_queued_ok p_sys Hq) as Hq'.
    destruct media as [m|]; [|exact Hq'].
    destruct (negb (v =? 0)); [exact Hq'|].
    destruct (input_item_IsPreparsed m); [|exact Hq'].
    rewrite (proj1 (ReadMetaData_queue _ _ _)). exact Hq'.
  - exact Hq.
Qed.

(** What a step of the submission thread does to the shared structure: it
    leaves it, or it empties the queue. *)
Lemma worker_step_structure : forall i at_pc p_sys,
  snd (worker_step i at_pc p_sys) = p_sys
  \/ snd (worker_step i at_pc p_sys) = DeleteSongQueue p_sys.
Proof.
  intros i at_pc p_sys.
  destruct at_pc as [|deadline| |r| | |]; cbn; try (left; reflexivity).
  destruct (SendRequest (in_net i) (in_stack i) r) as [[|]|]; cbn;
    [right|left|left]; reflexivity.
Qed.

(** X1.  From [Open] on, every record in the queue has an artist and a
    title that are not empty, and a date other than 0: [PreparePayload]
    never prints a null or empty artist or title. *)
Theorem queued_records_complete : forall s,
  reachable s -> Forall queued_ok (queue (sys s)).
Proof.
  induction 1 as [token url p_sys Hopen|s a Hreach IH Hok].
  - unfold Open in Hopen. destruct (EMPTY_STR token); [discriminate|].
    injection Hopen as <-. constructor.
  - destruct a as [e|i].
    + cbn. apply handle_event_queued_ok. exact IH.
    + rewrite (proj1 (system_step_sys i s)).
      destruct (worker_step_structure i (pc s) (sys s)) as [->| ->].
      * exact IH.
      * constructor.
Qed.

(** X2.  [Enqueue] right after [Enqueue] changes nothing, and so does a
    change of the current media to none: a listen that was queued, or
    dropped, when the player stopped is not queued a second time when the
    media changes. *)
Theorem Enqueue_twice : forall p_sys,
  Enqueue (Enqueue p_sys) = Enqueue p_sys
  /\ (forall video_tracks now,
        OnCurrentMediaChanged None video_tracks now (Enqueue p_sys)
        = Enqueue p_sys).
Proof.
  intros p_sys.
  assert (H : Enqueue (Enqueue p_sys) = Enqueue p_sys).
  { unfold Enqueue.
    destruct p_sys as [q l u t [a ti al tn id len d] b tp]; cbn.
    destruct (Z.eqb_spec d 0) as [->|Hd]; [reflexivity|].
    destruct (EMPTY_STR a || EMPTY_STR ti); [reflexivity|].
    destruct (len =? 0); cbn; destruct (tp <? 30); reflexivity. }
  split; [exact H|].
  intros video_tracks now. unfold OnCurrentMediaChanged. rewrite H.
  unfold Enqueue.
  destruct p_sys as [q l u t [a ti al tn id len d] b tp]; cbn.
  destruct (d =? 0); [reflexivity|].
  destruct (EMPTY_STR a || EMPTY_STR ti); [reflexivity|].
  destruct (len =? 0); cbn; destruct (tp <? 30); reflexivity.
Qed.

Lemma video_event_keeps_empty : forall e p_sys,
  p_current_song p_sys = zero_listen -> video_event e ->
  queue (handle_event e p_sys) = queue p_sys
  /\ p_current_song (handle_event e p_sys) = zero_listen.
Proof.
  intros [v state media now|ts|media v now|] p_sys Hz Hv; cbn in *.
  - unfold PlayerStateChanged.
    destruct (Z.eqb_spec v 0) as [|_]; [contradiction|]. cbn. auto.
  - auto.
  - unfold OnCurrentMediaChanged, Enqueue.
    destruct (Z.eqb_spec v 0) as [|_]; [contradiction|]. cbn.
    rewrite Hz. cbn. destruct media; cbn; rewrite Hz; auto.
  - auto.
Qed.

(** X3.  While the player has a video track nothing is captured: starting
    from an empty current listen, callbacks that all see a video track leave
    the queue as it is and the current listen empty, whatever the states
    signalled, the media and the time played. *)
Theorem video_is_not_captured : forall evs p_sys,
  p_current_song p_sys = zero_listen ->
  Forall video_event evs ->
  queue (handle_events evs p_sys) = queue p_sys
  /\ p_current_song (handle_events evs p_sys) = zero_listen.
Proof.
  induction evs as [|e evs IH]; intros p_sys Hz Hall; cbn; [auto|].
  inversion Hall as [|? ? He Hrest]; subst.
  destruct (video_event_keeps_empty e p_sys Hz He) as (Hq1 & Hz1).
  destruct (IH (handle_event e p_sys) Hz1 Hrest) as (Hq2 & Hz2).
  unfold handle_events in *. rewrite Hq2, Hq1. auto.
Qed.

(** Callbacks leave the configuration alone. *)
Lemma handle_event_config : forall e p_sys,
  p_submit_url (handle_event e p_sys) = p_submit_url p_sys
  /\ psz_user_token (handle_event e p_sys) = psz_user_token p_sys.
Proof.
  assert (HE : forall p_sys,
             p_submit_url (Enqueue p_sys) = p_submit_url p_sys
             /\ psz_user_token (Enqueue p_sys) = psz_user_token p_sys).
  { intros p_sys. unfold Enqueue.
    destruct p_sys as [q l u t [a ti al tn id len d] b tp]; cbn.
    destruct (d =? 0); [auto|].
    destruct (EMPTY_STR a || EMPTY_STR ti); [auto|].
    destruct (len =? 0); cbn; destruct (tp <? 30); auto. }
  assert (HR : forall p_sys item now,
             p_submit_url (ReadMetaData p_sys item now) = p_submit_url p_sys
             /\ psz_user_token (ReadMetaData p_sys item now)
                = psz_user_token p_sys).
  { intros p_sys [item|] now; [|auto].
    destruct (ReadMetaData_shape p_sys item now) as (song & -> & _). auto. }
  intros [v state media now|ts|media v now|] p_sys; cbn.
  - unfold PlayerStateChanged.
    destruct (negb (v =? 0)); [auto|].
    destruct (negb (b_meta_read p_sys) && _); [apply HR|].
    destruct state; auto.
  - auto.
  - unfold OnCurrentMediaChanged.
    destruct media as [m|]; [|apply HE].
    destruct (negb (v =? 0)); [apply HE|].
    destruct (input_item_IsPreparsed m); [|apply HE].
    destruct (HR (set_time_played (set_b_meta_read (Enqueue p_sys) false) 0)
                 (Some m) now) as (-> & ->).
    apply HE.
  - auto.
Qed.

(** X4.  The submission thread touches nothing but the queue: a step of it
    leaves the current listen, the metadata flag, the time played, the
    liveness flag and the configuration as they are, and the queue either
    as it is or empty. *)
Theorem worker_touches_queue_only : forall i at_pc p_sys,
  let p_sys' := snd (worker_step i at_pc p_sys) in
  p_current_song p_sys' = p_current_song p_sys
  /\ b_meta_read p_sys' = b_meta_read p_sys
  /\ time_played p_sys' = time_played p_sys
  /\ live p_sys' = live p_sys
  /\ p_submit_url p_sys' = p_submit_url p_sys
  /\ psz_user_token p_sys' = psz_user_token p_sys
  /\ (queue p_sys' = queue p_sys \/ queue p_sys' = []).
Proof.
  intros i at_pc p_sys p_sys'. subst p_sys'.
  destruct (worker_step_structure i at_pc p_sys) as [->| ->]; cbn;
    repeat split; auto.
Qed.

(** [Enqueue] pushes one record at most, behind those of the queue. *)
Lemma Enqueue_pushed : forall p_sys,
  exists pushed,
    queue (Enqueue p_sys) = queue p_sys ++ pushed
    /\ (List.length pushed <= 1)%nat.
Proof.
  intros p_sys. unfold Enqueue.
  destruct p_sys as [q l u t [a ti al tn id len d] b tp]; cbn.
  destruct (d =? 0);
    [exists []; cbn; split; [symmetry; apply app_nil_r | lia]|].
  destruct (EMPTY_STR a || EMPTY_STR ti);
    [exists []; cbn; split; [symmetry; apply app_nil_r | lia]|].
  destruct (len =? 0); cbn; destruct (tp <? 30); cbn;
    try (exists []; cbn; split; [symmetry; apply app_nil_r | lia]);
    eexists; (split; [reflexivity | cbn; lia]).
Qed.

(** X5.  The callbacks of the player (state, timer, current media) never
    take a record out of the queue: the queue after a callback is the queue
    before it followed by what the callback pushed, one record at most.
    They change neither the submission URL, nor the token, nor the
    liveness flag. *)
Theorem player_callbacks_only_append : forall e p_sys,
  e <> EvClose ->
  (exists pushed,
     queue (handle_event e p_sys) = queue p_sys ++ pushed
     /\ (List.length pushed <= 1)%nat)
  /\ p_submit_url (handle_event e p_sys) = p_submit_url p_sys
  /\ psz_user_token (handle_event e p_sys) = psz_user_token p_sys
  /\ live (handle_event e p_sys) = live p_sys.
Proof.
  intros e p_sys Hne.
  split; [|split; [apply handle_event_config|
                   split; [apply handle_event_config
                          |apply handle_event_live; exact Hne]]].
  assert (Hsame : forall q : list listen_t,
             exists pushed, q = q ++ pushed /\ (List.length pushed <= 1)%nat).
  { intros q. exists []. split; [symmetry; apply app_nil_r | cbn; lia]. }
  destruct e as [v state media now|ts|media v now|]; cbn.
  - unfold PlayerStateChanged.
    destruct (negb (v =? 0)); [apply Hsame|].
    destruct (negb (b_meta_read p_sys) && _).
    + rewrite (proj1 (ReadMetaData_queue p_sys media now)). apply Hsame.
    + destruct state; try apply Hsame. apply Enqueue_pushed.
  - apply Hsame.
  - unfold OnCurrentMediaChanged.
    destruct media as [m|]; [|apply Enqueue_pushed].
    destruct (negb (v =? 0)); [apply Enqueue_pushed|].
    destruct (input_item_IsPreparsed m); [|apply Enqueue_pushed].
    rewrite (proj1 (ReadMetaData_queue _ _ _)). apply Enqueue_pushed.
  - contradiction.
Qed.

(** ** Further properties of the request sender *)

Lemma LF_not_NUL : CStr.LF <> CStr.NUL.
Proof. discriminate. Qed.

Lemma strchr_none_iff : forall l c rest,
  c <> CStr.NUL ->
  (CStr.strchr (l ++ CStr.NUL :: rest) c = None <-> ~ In c (c_string l)).
Proof.
  induction l as [|b l IH]; intros c rest Hc;
    cbn [app CStr.strchr c_string].
  - rewrite (byte_eqb_neq CStr.NUL c) by congruence. cbn.
    split; [intros _ H; exact H | reflexivity].
  - destruct (Byte.eqb b c) eqn:Ebc.
    + apply Byte.byte_dec_bl in Ebc. subst b.
      rewrite (byte_eqb_neq c CStr.NUL) by exact Hc. cbn.
      split; [discriminate | intros H; exfalso; apply H; left; reflexivity].
    + destruct (Byte.eqb b CStr.NUL) eqn:Ebn; cbn.
      * split; [intros _ H; exact H | reflexivity].
      * specialize (IH c rest Hc).
        destruct (CStr.strchr (l ++ CStr.NUL :: rest) c) as [k|]; cbn.
        -- split; [discriminate|]. intros H. exfalso.
           assert (Hin : In c (c_string l)).
           { destruct (in_dec Byte.byte_eq_dec c (c_string l)) as [Hi|Hni];
               [exact Hi|]. apply IH in Hni. discriminate. }
           apply H. right. exact Hin.
        -- split; [|reflexivity]. intros _ [Hb|Hin].
           ++ subst b. rewrite byte_eqb_refl in Ebc. discriminate.
           ++ apply (proj1 IH); [reflexivity | exact Hin].
Qed.

Lemma strchr_bound : forall l c rest k,
  c <> CStr.NUL ->
  CStr.strchr (l ++ CStr.NUL :: rest) c = Some k ->
  (k < List.length l)%nat.
Proof.
  induction l as [|b l IH]; intros c rest k Hc;
    cbn [app CStr.strchr List.length].
  - rewrite (byte_eqb_neq CStr.NUL c) by congruence. cbn. discriminate.
  - destruct (Byte.eqb b c); [intros [= <-]; lia|].
    destruct (Byte.eqb b CStr.NUL); [discriminate|].
    destruct (CStr.strchr (l ++ CStr.NUL :: rest) c) as [k'|] eqn:E;
      cbn; [|discriminate].
    intros [= <-]. specialize (IH c rest k' Hc E). lia.
Qed.

Lemma store_inside : forall (l : list byte) k b rest,
  (k < List.length l)%nat ->
  CStr.store (l ++ rest) k b = CStr.store l k b ++ rest.
Proof.
  induction l as [|x l IH]; intros k b rest Hk; cbn in *; [lia|].
  destruct k as [|k]; cbn; [reflexivity|].
  rewrite IH by lia. reflexivity.
Qed.

(** [SendRequest] on a response of at least one byte, with the array as it
    is after the read and the store of the terminator. *)
Lemma SendRequest_terminated :
  forall net p_buffer request data,
    List.length p_buffer = 1024%nat ->
    tls_open net = true -> tls_write net <> -1 ->
    tls_incoming net = Some data ->
    firstn 1023 data <> [] ->
    exists rest,
      SendRequest net p_buffer request =
      match CStr.strchr (firstn 1023 data ++ CStr.NUL :: rest) CStr.LF with
      | None => NullDereference
      | Some status =>
          match CStr.strstr
                  (CStr.store (firstn 1023 data) status CStr.NUL
                     ++ CStr.NUL :: rest) status_200 with
          | Some _ => Returns VLC_SUCCESS
          | None => Returns VLC_EGENERIC
          end
      end.
Proof.
  intros net p_buffer request data Hlen Hopen Hwrite Hin Hne.
  rewrite (SendRequest_read net p_buffer request data Hopen Hwrite Hin).
  assert (Hshort : (List.length (firstn 1023 data)
                    < List.length p_buffer)%nat).
  { rewrite Hlen. pose proof (List.firstn_le_length 1023 data). lia. }
  destruct (skipn_inside _ _ Hshort) as (b & rest & ->).
  rewrite store_at_length. exists rest.
  destruct (firstn 1023 data) as [|d0 response] eqn:E; [contradiction|].
  cbv zeta.
  destruct (CStr.strchr ((d0 :: response) ++ CStr.NUL :: rest) CStr.LF)
    as [status|] eqn:Es; [|reflexivity].
  rewrite store_inside
    by exact (strchr_bound _ _ _ _ LF_not_NUL Es).
  reflexivity.
Qed.

(** X7.  [SendRequest] stores through the null pointer exactly when the
    socket was opened, the write did not fail, at least one byte was read,
    and the bytes read (1023 at most) hold no line feed before their first
    NUL; a NUL before the first line feed has the effect of a missing line
    feed. *)
Theorem SendRequest_null_dereference_iff :
  forall net p_buffer request,
    List.length p_buffer = 1024%nat ->
    (SendRequest net p_buffer request = NullDereference
     <-> tls_open net = true
         /\ tls_write net <> -1
         /\ exists data,
              tls_incoming net = Some data
              /\ firstn 1023 data <> []
              /\ ~ In CStr.LF (c_string (firstn 1023 data))).
Proof.
  intros net p_buffer request Hlen. split.
  - intros Hnull.
    destruct (tls_open net) eqn:Hopen;
      [|unfold SendRequest in Hnull; rewrite Hopen in Hnull; discriminate].
    destruct (Z.eq_dec (tls_write net) (-1)) as [Hw|Hw].
    { unfold SendRequest in Hnull. rewrite Hopen, Hw in Hnull.
      discriminate. }
    destruct (tls_incoming net) as [data|] eqn:Hin.
    + split; [reflexivity|]. split; [exact Hw|]. exists data.
      split; [reflexivity|].
      destruct (firstn 1023 data) as [|d0 response] eqn:E.
      * rewrite (SendRequest_read net _ request data Hopen Hw Hin), E
          in Hnull. discriminate.
      * split; [discriminate|].
        assert (Hne : firstn 1023 data <> []) by (rewrite E; discriminate).
        destruct (SendRequest_terminated net p_buffer request data Hlen
                    Hopen Hw Hin Hne) as (rest & Heq).
        rewrite Heq, E in Hnull.
        destruct (CStr.strchr ((d0 :: response) ++ CStr.NUL :: rest)
                              CStr.LF) as [status|] eqn:Es.
        -- destruct (CStr.strstr _ status_200); discriminate.
        -- exact (proj1 (strchr_none_iff _ _ _ LF_not_NUL) Es).
    + unfold SendRequest, vlc_tls_Read in Hnull.
      rewrite Hopen, Hin in Hnull. cbn [negb] in Hnull.
      destruct (tls_write net =? -1); discriminate.
  - intros (Hopen & Hw & data & Hin & Hne & Hlf).
    destruct (SendRequest_terminated net p_buffer request data Hlen
                Hopen Hw Hin Hne) as (rest & ->).
    rewrite (proj2 (strchr_none_iff _ _ rest LF_not_NUL) Hlf).
    reflexivity.
Qed.

(** ** Further properties of the submission thread *)

Lemma set_queue_same : forall p_sys, set_queue p_sys (queue p_sys) = p_sys.
Proof. intros []; reflexivity. Qed.

(** The request depends on the configuration and on the records only. *)
Lemma request_for_config : forall p_sys1 p_sys2 q,
  p_submit_url p_sys1 = p_submit_url p_sys2 ->
  psz_user_token p_sys1 = psz_user_token p_sys2 ->
  request_for p_sys1 q = request_for p_sys2 q.
Proof.
  intros p_sys1 p_sys2 q Hu Ht. unfold request_for.
  rewrite !PreparePayload_text. cbn [queue set_queue].
  unfold PrepareRequest. rewrite Hu, Ht. reflexivity.
Qed.

Lemma PreparePayload_some : forall ok p_sys payload,
  PreparePayload ok p_sys = Some payload ->
  PreparePayload true p_sys = Some payload.
Proof.
  intros [|] p_sys payload H; [exact H|].
  unfold PreparePayload in H. cbv beta iota zeta in H. discriminate H.
Qed.

Lemma PrepareRequest_some : forall ok p_sys payload request,
  PrepareRequest ok p_sys payload = Some request ->
  PrepareRequest true p_sys payload = Some request.
Proof.
  intros [|] p_sys payload request H; [exact H|].
  unfold PrepareRequest in H. cbv beta iota zeta in H. discriminate H.
Qed.

Lemma Run_submit_request : forall i p_sys request,
  Run_submit i p_sys = PcSend request ->
  request_for p_sys (queue p_sys) = Some request.
Proof.
  intros i p_sys request. unfold Run_submit, request_for.
  rewrite set_queue_same.
  destruct (PreparePayload (in_payload_ok i) p_sys) as [payload|] eqn:Ep;
    [|discriminate].
  rewrite (PreparePayload_some _ _ _ Ep).
  destruct (PrepareRequest (in_request_ok i) p_sys payload) as [r|] eqn:Er;
    [|discriminate].
  intros [= <-]. exact (PrepareRequest_some _ _ _ _ Er).
Qed.

Lemma Run_work_wait_submits : forall i p_sys request,
  Run_work_wait i p_sys = PcSend request ->
  Run_submit i p_sys = PcSend request.
Proof.
  intros i p_sys request. unfold Run_work_wait.
  destruct (live p_sys); cbn.
  - destruct (List.length (queue p_sys) =? 0)%nat; [discriminate|].
    intros H. exact H.
  - discriminate.
Qed.

Lemma Run_submit_not_waiting : forall i p_sys deadline,
  Run_submit i p_sys <> PcTimedWait deadline.
Proof.
  intros i p_sys deadline. unfold Run_submit.
  destruct (PreparePayload (in_payload_ok i) p_sys) as [payload|];
    [|discriminate].
  destruct (PrepareRequest (in_request_ok i) p_sys payload);
    discriminate.
Qed.

Lemma Run_work_wait_not_backoff : forall i p_sys deadline,
  Run_work_wait i p_sys <> PcTimedWait deadline.
Proof.
  intros i p_sys deadline. unfold Run_work_wait.
  destruct (live p_sys && _); [discriminate|].
  destruct (negb (live p_sys)); [discriminate|].
  apply Run_submit_not_waiting.
Qed.

(** When a step of the thread ends with a request out, the request was
    built from the queue as the step leaves it. *)
Lemma worker_step_submits : forall i at_pc p_sys request p_sys',
  worker_step i at_pc p_sys = (PcSend request, p_sys') ->
  Run_submit i p_sys' = PcSend request.
Proof.
  intros i at_pc p_sys request p_sys'.
  destruct at_pc as [|deadline| |r| | |]; cbn.
  - intros [= H <-]. exact (Run_work_wait_submits _ _ _ H).
  - intros [= H <-]. unfold Run_backoff in H.
    destruct (live p_sys && _); [discriminate|].
    exact (Run_work_wait_submits _ _ _ H).
  - intros [= H <-]. exact (Run_work_wait_submits _ _ _ H).
  - destruct (SendRequest (in_net i) (in_stack i) r) as [ret|];
      [|discriminate].
    destruct (Run_after_send ret p_sys) as [b_wait st] eqn:E.
    intros [= H <-]. unfold Run_loop_top, Run_backoff in H.
    destruct b_wait.
    + destruct (live st && _); [discriminate|].
      exact (Run_work_wait_submits _ _ _ H).
    + exact (Run_work_wait_submits _ _ _ H).
  - discriminate.
  - discriminate.
  - discriminate.
Qed.

(** The request that is out was built from a part of the queue that is
    still at its head. *)
Lemma send_snapshot : forall s,
  reachable s -> forall request, pc s = PcSend request ->
  exists snapshot pushed,
    snapshot <> []
    /\ queue (sys s) = snapshot ++ pushed
    /\ request_for (sys s) snapshot = Some request.
Proof.
  induction 1 as [token url p_sys Hopen|s a Hreach IH Hok];
    intros request Hpc; [discriminate|].
  destruct a as [e|i].
  - cbn in Hpc. destruct (IH request Hpc) as (snap & pushed & Hne & Hq & Hr).
    destruct (handle_event_queue e (sys s)) as (pushed' & Hq').
    destruct (handle_event_config e (sys s)) as (Hu & Ht).
    exists snap, (pushed ++ pushed'). cbn [sys system_step].
    split; [exact Hne|]. split.
    + rewrite Hq', Hq. symmetry. apply app_assoc.
    + rewrite <- Hr. apply request_for_config; assumption.
  - cbn in Hpc |- *.
    destruct (worker_step i (pc s) (sys s)) as [pc1 st1] eqn:E.
    cbn in Hpc |- *. subst pc1.
    exists (queue st1), []. split.
    + apply (worker_step_send i (pc s) (sys s) request st1); [|exact E].
      intros r Hr. exact (reachable_send_queue s Hreach r Hr).
    + split; [symmetry; apply app_nil_r|].
      apply (Run_submit_request i).
      exact (worker_step_submits i (pc s) (sys s) request st1 E).
Qed.

(** In the backoff the queue holds something. *)
Lemma reachable_backoff_queue : forall s,
  reachable s -> forall deadline, pc s = PcTimedWait deadline ->
  queue (sys s) <> [].
Proof.
  induction 1 as [token url p_sys Hopen|s a Hreach IH Hok];
    intros deadline Hpc; [discriminate|].
  destruct a as [e|i].
  - cbn in Hpc |- *.
    destruct (handle_event_queue e (sys s)) as (pushed & ->).
    intros Happ. apply app_eq_nil in Happ.
    exact (IH deadline Hpc (proj1 Happ)).
  - rewrite (proj2 (system_step_sys i s)) in Hpc.
    rewrite (proj1 (system_step_sys i s)).
    destruct (pc s) as [|d0| |r| | |] eqn:Epc; cbn in Hpc |- *.
    + exfalso. exact (Run_work_wait_not_backoff _ _ _ Hpc).
    + unfold Run_backoff in Hpc.
      destruct (live (sys s) && _).
      * exact (IH d0 eq_refl).
      * exfalso. exact (Run_work_wait_not_backoff _ _ _ Hpc).
    + exfalso. exact (Run_work_wait_not_backoff _ _ _ Hpc).
    + pose proof (reachable_send_queue s Hreach r Epc) as Hne.
      destruct (SendRequest (in_net i) (in_stack i) r) as [[|]|];
        cbn in Hpc |- *.
      * exfalso. exact (Run_work_wait_not_backoff _ _ _ Hpc).
      * exact Hne.
      * discriminate.
    + discriminate.
    + discriminate.
    + discriminate.
Qed.

(** X8.  While a request is out (in any state that can be reached from
    [Open]), the request is the one built from a part of the queue that is
    not empty and is still at the head of the queue; what the callbacks
    pushed since comes after it.  When [SendRequest] returns success the
    whole queue is emptied, the records pushed since included, though the
    request did not carry them; the thread hands no request to
    [SendRequest] in that step, and waits for work or leaves. *)
Theorem in_flight_request_snapshot : forall s request,
  reachable s -> pc s = PcSend request ->
  exists snapshot pushed,
    snapshot <> []
    /\ queue (sys s) = snapshot ++ pushed
    /\ request_for (sys s) snapshot = Some request
    /\ (forall i,
          SendRequest (in_net i) (in_stack i) request = Returns VLC_SUCCESS ->
          queue (sys (system_step (ActWorker i) s)) = []
          /\ attempts (system_step (ActWorker i) s) = attempts s
          /\ (pc (system_step (ActWorker i) s) = PcWait
              \/ pc (system_step (ActWorker i) s) = PcExited)).
Proof.
  intros s request Hreach Hpc.
  destruct (send_snapshot s Hreach request Hpc)
    as (snap & pushed & Hne & Hq & Hr).
  exists snap, pushed. split; [exact Hne|]. split; [exact Hq|].
  split; [exact Hr|].
  intros i Hsend. cbn. rewrite Hpc. cbn. rewrite Hsend. cbn.
  unfold Run_work_wait. cbn.
  destruct (live (sys s)); cbn.
  - split; [reflexivity|]. split; [apply app_nil_r | left; reflexivity].
  - split; [reflexivity|]. split; [apply app_nil_r | right; reflexivity].
Qed.

(** X9.  When the backoff times out and the plugin is live, the thread
    builds one request from the whole queue as it is then, the records of
    the failed batch first and those pushed since after them, and hands it
    to [SendRequest]; the queue is not touched. *)
Theorem backoff_timeout_resubmits_queue : forall s deadline i,
  reachable s ->
  pc s = PcTimedWait deadline ->
  live (sys s) = true ->
  in_ret i <> 0 ->
  in_payload_ok i = true -> in_request_ok i = true ->
  exists request,
    request_for (sys s) (queue (sys s)) = Some request
    /\ system_step (ActWorker i) s
       = mk_system (sys s) (PcSend request) (attempts s ++ [request]).
Proof.
  intros s deadline i Hreach Hpc Hlive Hret Hpay Hreq.
  pose proof (reachable_backoff_queue s Hreach deadline Hpc) as Hne.
  destruct (PreparePayload_total (sys s)) as (payload & Hp).
  destruct (PrepareRequest true (sys s) payload) as [request|] eqn:Hr;
    [|unfold PrepareRequest in Hr; cbv beta iota zeta in Hr;
      discriminate Hr].
  exists request. split.
  - unfold request_for. rewrite set_queue_same, Hp. exact Hr.
  - unfold system_step. rewrite Hpc.
    unfold worker_step, Run_backoff, Run_work_wait, Run_submit.
    rewrite Hlive, Hpay, Hreq, Hp, Hr.
    destruct (Z.eqb_spec (in_ret i) 0) as [|_]; [contradiction|].
    destruct (queue (sys s)) as [|r q]; [contradiction|].
    reflexivity.
Qed.

(** Once the thread is gone it stays gone, and sends nothing. *)
Lemma gone_stays : forall acts s,
  thread_gone (pc s) ->
  pc (run acts s) = pc s /\ attempts (run acts s) = attempts s.
Proof.
  induction acts as [|a acts IH]; intros s Hgone; cbn; [auto|].
  assert (Hstep : pc (system_step a s) = pc s
                  /\ attempts (system_step a s) = attempts s).
  { destruct a as [e|i]; cbn; [auto|].
    destruct Hgone as [H|[H|H]]; rewrite H; cbn;
      (split; [reflexivity | apply app_nil_r]). }
  destruct Hstep as (Hpc1 & Hat1).
  assert (Hgone1 : thread_gone (pc (system_step a s)))
    by (rewrite Hpc1; exact Hgone).
  destruct (IH (system_step a s) Hgone1) as (Hpc2 & Hat2).
  unfold run in *. rewrite Hpc2, Hat2, Hpc1, Hat1. auto.
Qed.

(** X10.  When the memory stream of the payload or of the request fails,
    [Run] returns: the thread that was woken with work in the queue hands
    nothing to [SendRequest], and nothing that happens later (callbacks,
    records pushed, wake-ups) makes it send anything. *)
Theorem build_failure_ends_thread : forall s i,
  pc s = PcWait ->
  live (sys s) = true ->
  queue (sys s) <> [] ->
  (in_payload_ok i = false \/ in_request_ok i = false) ->
  pc (system_step (ActWorker i) s) = PcAborted
  /\ attempts (system_step (ActWorker i) s) = attempts s
  /\ (forall acts,
        pc (run acts (system_step (ActWorker i) s)) = PcAborted
        /\ attempts (run acts (system_step (ActWorker i) s)) = attempts s).
Proof.
  intros s i Hpc Hlive Hne Hfail.
  assert (Hstep : pc (system_step (ActWorker i) s) = PcAborted
                  /\ attempts (system_step (ActWorker i) s) = attempts s).
  { cbn. rewrite Hpc. cbn. unfold Run_work_wait, Run_submit.
    rewrite Hlive. destruct (queue (sys s)) as [|r q] eqn:Eq;
      [contradiction|]. cbn.
    unfold PreparePayload at 1.
    destruct Hfail as [Hf|Hf]; rewrite Hf.
    - cbn. split; [reflexivity | apply app_nil_r].
    - destruct (in_payload_ok i); cbn;
        (split; [reflexivity | apply app_nil_r]). }
  destruct Hstep as (Hpc1 & Hat1).
  split; [exact Hpc1|]. split; [exact Hat1|].
  intros acts.
  assert (Hgone : thread_gone (pc (system_step (ActWorker i) s)))
    by (rewrite Hpc1; right; left; reflexivity).
  destruct (gone_stays acts _ Hgone) as (H1 & H2).
  rewrite H1, H2. auto.
Qed.

(** ** From the callbacks to the queue *)





(** ** Numbers in the payload and in the request *)

Lemma read_decimal_fmt_u : forall z, 0 <= z -> read_decimal (fmt_u z) = Some z.
Proof.
  intros z Hz. unfold read_decimal, fmt_u.
  rewrite NilEmpty.usu. cbn.
  rewrite DecimalN.Unsigned.of_to, Z2N.id by exact Hz. reflexivity.
Qed.

(** X12.  The text of a queued record opens with its [listened_at] member,
    a run of decimal digits that reads back as the date of the record taken
    modulo 2^64: a date in the range of [uint64_t] is sent as it is, and a
    negative one (what [time()] returns when it fails is -1) as a number
    near 2^64. *)
Theorem listened_at_reads_back : forall p_song,
  exists digits rest,
    PreparePayload_song EmptyString p_song
    = ("{" ++ Q ++ "listened_at" ++ Q ++ ": " ++ digits ++ ", " ++ rest)%string
    /\ read_decimal digits = Some (date p_song mod 2 ^ 64).
Proof.
  intros p_song. exists (fmt_u (to_uint64 (date p_song))).
  unfold PreparePayload_song, vlc_memstream_printf.
  destruct (negb (EMPTY_STR (psz_album p_song)));
    destruct (negb (EMPTY_STR (psz_musicbrainz_recording_id p_song)));
    (eexists; split;
     [ cbn [String.append]; rewrite ?string_append_assoc;
       cbn [String.append]; reflexivity
     | apply read_decimal_fmt_u; unfold to_uint64;
       apply Z.mod_pos_bound; lia ]).
Qed.


(** ** When the payload is a JSON text *)

Lemma list_ascii_of_string_app : forall a b : string,
  list_ascii_of_string (a ++ b)
  = list_ascii_of_string a ++ list_ascii_of_string b.
Proof.
  induction a as [|c a IH]; intros b; cbn; [reflexivity|].
  rewrite IH. reflexivity.
Qed.

(** The reader takes a plain text up to the closing quote as it is. *)
Lemma string_body_plain : forall s rest acc,
  plain_text s = true ->
  Json.string_body (list_ascii_of_string s ++ Json.DQ :: rest) acc
  = Json.Parsed
      (string_of_list_ascii (rev acc ++ list_ascii_of_string s)) rest.
Proof.
  induction s as [|c s IH]; intros rest acc Hp.
  - cbn. rewrite app_nil_r. reflexivity.
  - cbn [plain_text] in Hp. apply andb_prop in Hp. destruct Hp as [Hc Hs].
    unfold plain_char in Hc.
    apply andb_prop in Hc. destruct Hc as [Hc Hctl].
    apply andb_prop in Hc. destruct Hc as [Hdq Hbs].
    apply negb_true_iff in Hdq, Hbs, Hctl.
    cbn [list_ascii_of_string app Json.string_body].
    rewrite Hdq, Hbs, Hctl. rewrite IH by exact Hs.
    cbn [rev]. rewrite <- app_assoc. reflexivity.
Qed.

Lemma digits_of_uint : forall d c rest,
  Json.is_digit c = false ->
  Json.digits (list_ascii_of_string (NilEmpty.string_of_uint d) ++ c :: rest)
  = (list_ascii_of_string (NilEmpty.string_of_uint d), c :: rest).
Proof.
  induction d; intros c rest Hc;
    cbn [NilEmpty.string_of_uint list_ascii_of_string app Json.digits];
    try (rewrite Hc; reflexivity);
    rewrite (IHd c rest Hc); reflexivity.
Qed.

(** What [%PRIu64] prints has no leading zero: it is ["0"], or it starts
    with a digit from 1 to 9. *)
Lemma to_uint_head : forall n,
  N.to_uint n = Decimal.D0 Decimal.Nil
  \/ match N.to_uint n with
     | Decimal.Nil | Decimal.D0 _ => False
     | _ => True
     end.
Proof.
  intros n.
  assert (H : N.to_uint n = Decimal.unorm (N.to_uint n)).
  { rewrite <- DecimalN.Unsigned.to_of, DecimalN.Unsigned.of_to.
    reflexivity. }
  destruct (N.to_uint n) as [|d|d|d|d|d|d|d|d|d|d] eqn:E;
    try (right; exact I).
  - exfalso. symmetry in H. exact (DecimalFacts.unorm_nonnil _ H).
  - left. rewrite DecimalFacts.unorm_D0 in H. unfold Decimal.unorm in H.
    destruct (Decimal.nzhead d) eqn:Ez; try discriminate H.
    + injection H as ->. reflexivity.
    + exfalso. rewrite <- Ez in H. symmetry in H.
      exact (DecimalFacts.nzhead_nonzero _ _ H).
Qed.

(** The reader takes what [%PRIu64] prints as one number, when a comma
    follows. *)
Lemma number_fmt_u : forall z rest,
  Json.number (list_ascii_of_string (fmt_u z) ++ ","%char :: rest)
  = Json.Parsed (fmt_u z) (","%char :: rest).
Proof.
  intros z rest. unfold fmt_u.
  destruct (to_uint_head (Z.to_N z)) as [H|H].
  - rewrite H. reflexivity.
  - destruct (N.to_uint (Z.to_N z)) as [|d|d|d|d|d|d|d|d|d|d];
      try contradiction;
      cbn [NilEmpty.string_of_uint list_ascii_of_string app];
      unfold Json.number;
      cbn [Ascii.eqb Bool.eqb Json.is_digit nat_of_ascii andb];
      rewrite (digits_of_uint d ","%char rest eq_refl);
      cbn; rewrite string_of_list_ascii_of_string; reflexivity.
Qed.

(** How the reader goes through a text, one construct at a time. *)

Lemma parse_value_string : forall f s str rest,
  Json.skip_ws s = Json.DQ :: list_ascii_of_string str ++ Json.DQ :: rest ->
  plain_text str = true ->
  Json.parse_value (S f) s = Json.Parsed (Json.Str str) rest.
Proof.
  intros f s str rest Hs Hp. cbn [Json.parse_value]. rewrite Hs.
  cbn [Ascii.eqb Bool.eqb Json.DQ andb].
  rewrite (string_body_plain str rest [] Hp). cbn [rev app].
  rewrite string_of_list_ascii_of_string. reflexivity.
Qed.

Lemma parse_value_number : forall f s z rest,
  Json.skip_ws s
  = Json.skip_ws (list_ascii_of_string (fmt_u z) ++ ","%char :: rest) ->
  Json.parse_value (S f) s
  = Json.Parsed (Json.Number (fmt_u z)) (","%char :: rest).
Proof.
  intros f s z rest Hs. cbn [Json.parse_value]. rewrite Hs.
  pose proof (number_fmt_u z rest) as Hn. unfold fmt_u in Hn |- *.
  destruct (N.to_uint (Z.to_N z)) as [|d|d|d|d|d|d|d|d|d|d];
    cbn [NilEmpty.string_of_uint list_ascii_of_string app] in Hn |- *;
    try (cbn -[Json.number]; rewrite Hn; reflexivity).
  cbn in Hn. discriminate Hn.
Qed.

Lemma parse_value_object : forall f s tl tl',
  Json.skip_ws s = "{"%char :: tl ->
  Json.skip_ws tl = Json.DQ :: tl' ->
  Json.parse_value (S f) s = Json.parse_members f tl [].
Proof.
  intros f s tl tl' Hs Htl. cbn [Json.parse_value]. rewrite Hs, Htl.
  reflexivity.
Qed.

Lemma parse_value_array : forall f s tl tl',
  Json.skip_ws s = "["%char :: tl ->
  Json.skip_ws tl = "{"%char :: tl' ->
  Json.parse_value (S f) s = Json.parse_elements f tl [].
Proof.
  intros f s tl tl' Hs Htl. cbn [Json.parse_value]. rewrite Hs, Htl.
  reflexivity.
Qed.

Lemma parse_members_more : forall f s acc key r r1 v r2 r3,
  Json.skip_ws s = Json.DQ :: list_ascii_of_string key ++ Json.DQ :: r ->
  plain_text key = true ->
  Json.skip_ws r = ":"%char :: r1 ->
  Json.parse_value f r1 = Json.Parsed v r2 ->
  Json.skip_ws r2 = ","%char :: r3 ->
  Json.parse_members (S f) s acc
  = Json.parse_members f r3 ((key, v) :: acc).
Proof.
  intros f s acc key r r1 v r2 r3 Hs Hk Hr Hv Hr2.
  cbn [Json.parse_members]. rewrite Hs.
  cbn [Ascii.eqb Bool.eqb Json.DQ andb].
  rewrite (string_body_plain key r [] Hk). cbn [rev app].
  rewrite string_of_list_ascii_of_string, Hr.
  cbn [Ascii.eqb Bool.eqb andb]. rewrite Hv, Hr2. reflexivity.
Qed.

Lemma parse_members_last : forall f s acc key r r1 v r2 r3,
  Json.skip_ws s = Json.DQ :: list_ascii_of_string key ++ Json.DQ :: r ->
  plain_text key = true ->
  Json.skip_ws r = ":"%char :: r1 ->
  Json.parse_value f r1 = Json.Parsed v r2 ->
  Json.skip_ws r2 = "}"%char :: r3 ->
  Json.parse_members (S f) s acc
  = Json.Parsed (Json.Object (rev ((key, v) :: acc))) r3.
Proof.
  intros f s acc key r r1 v r2 r3 Hs Hk Hr Hv Hr2.
  cbn [Json.parse_members]. rewrite Hs.
  cbn [Ascii.eqb Bool.eqb Json.DQ andb].
  rewrite (string_body_plain key r [] Hk). cbn [rev app].
  rewrite string_of_list_ascii_of_string, Hr.
  cbn [Ascii.eqb Bool.eqb andb]. rewrite Hv, Hr2. reflexivity.
Qed.

Lemma parse_elements_last : forall f s acc v r r1,
  Json.parse_value f s = Json.Parsed v r ->
  Json.skip_ws r = "]"%char :: r1 ->
  Json.parse_elements (S f) s acc
  = Json.Parsed (Json.Array (rev (v :: acc))) r1.
Proof.
  intros f s acc v r r1 Hv Hr.
  cbn [Json.parse_elements]. rewrite Hv, Hr. reflexivity.
Qed.

(** A side condition on what follows in the text. *)
Ltac next_chars := cbn; reflexivity.

Lemma parse_members_error : forall f s acc key r r1,
  Json.skip_ws s = Json.DQ :: list_ascii_of_string key ++ Json.DQ :: r ->
  plain_text key = true ->
  Json.skip_ws r = ":"%char :: r1 ->
  Json.parse_value f r1 = Json.SyntaxError ->
  Json.parse_members (S f) s acc = Json.SyntaxError.
Proof.
  intros f s acc key r r1 Hs Hk Hr Hv.
  cbn [Json.parse_members]. rewrite Hs.
  cbn [Ascii.eqb Bool.eqb Json.DQ andb].
  rewrite (string_body_plain key r [] Hk). cbn [rev app].
  rewrite string_of_list_ascii_of_string, Hr.
  cbn [Ascii.eqb Bool.eqb andb]. rewrite Hv. reflexivity.
Qed.

Lemma parse_elements_error : forall f s acc,
  Json.parse_value f s = Json.SyntaxError ->
  Json.parse_elements (S f) s acc = Json.SyntaxError.
Proof.
  intros f s acc Hv. cbn [Json.parse_elements]. rewrite Hv. reflexivity.
Qed.

(** Two values of an array with no comma between them. *)
Lemma parse_elements_no_comma : forall f s acc v r r1,
  Json.parse_value f s = Json.Parsed v r ->
  Json.skip_ws r = "{"%char :: r1 ->
  Json.parse_elements (S f) s acc = Json.SyntaxError.
Proof.
  intros f s acc v r r1 Hv Hr.
  cbn [Json.parse_elements]. rewrite Hv, Hr. reflexivity.
Qed.

(** The texts as lists of characters, every literal spelled out. *)
Ltac spell_out :=
  unfold PreparePayload_song, payload_opening, vlc_memstream_printf, Q;
  repeat first [rewrite string_append_assoc
               | progress cbn [String.append]];
  repeat first [rewrite list_ascii_of_string_app
               | rewrite <- app_assoc
               | progress cbn [list_ascii_of_string app]].

(** The text of a record starts with a brace. *)
Lemma song_text_head : forall p_song,
  exists tl,
    list_ascii_of_string (PreparePayload_song EmptyString p_song)
    = "{"%char :: tl.
Proof.
  intros p_song. unfold PreparePayload_song, vlc_memstream_printf.
  destruct (negb (EMPTY_STR (psz_album p_song)));
    destruct (negb (EMPTY_STR (psz_musicbrainz_recording_id p_song)));
    cbn [String.append]; rewrite !string_append_assoc;
    cbn [String.append list_ascii_of_string]; eexists; reflexivity.
Qed.

(** The reader on the text of a record that has an album. *)
Lemma parse_value_song : forall f r rest,
  plain_record r ->
  EMPTY_STR (psz_album r) = false ->
  Json.parse_value (11 + f)
    (list_ascii_of_string (PreparePayload_song EmptyString r) ++ rest)
  = Json.Parsed
      (listen_value (date r) (fmt_s (psz_artist r)) (fmt_s (psz_title r))
                    (fmt_s (psz_album r))
                    (psz_musicbrainz_recording_id r))
      rest.
Proof.
  intros f r rest (Hpa & Hpt & Hpal & Hpid) Halbum.
  unfold listen_value. cbn [Nat.add].
  remember (fmt_s (psz_artist r)) as artist.
  remember (fmt_s (psz_title r)) as title.
  remember (fmt_s (psz_album r)) as album.
  remember (fmt_s (psz_musicbrainz_recording_id r)) as recording_id.
  fold (to_uint64 (date r)).
  unfold PreparePayload_song.
  rewrite <- Heqartist, <- Heqtitle, <- Heqalbum, <- Heqrecording_id, Halbum.
  cbn [negb].
  destruct (EMPTY_STR (psz_musicbrainz_recording_id r)); cbn [negb app];
    spell_out.
  - erewrite parse_value_object; [|next_chars|next_chars].
    erewrite (parse_members_more _ _ _ "listened_at");
      [|next_chars|reflexivity|next_chars
       |apply (parse_value_number _ _ (to_uint64 (date r))); next_chars
       |next_chars].
    erewrite (parse_members_last _ _ _ "track_metadata");
      [|next_chars|reflexivity|next_chars
      |erewrite parse_value_object; [|next_chars|next_chars];
       erewrite (parse_members_more _ _ _ "artist_name");
       [|next_chars|reflexivity|next_chars
        |apply (parse_value_string _ _ artist); [next_chars|exact Hpa]
        |next_chars];
       erewrite (parse_members_more _ _ _ "track_name");
       [|next_chars|reflexivity|next_chars
        |apply (parse_value_string _ _ title); [next_chars|exact Hpt]
        |next_chars];
       eapply (parse_members_last _ _ _ "release_name");
       [next_chars|reflexivity|next_chars
       |apply (parse_value_string _ _ album); [next_chars|exact Hpal]
       |next_chars]
      |next_chars].
    reflexivity.
  - erewrite parse_value_object; [|next_chars|next_chars].
    erewrite (parse_members_more _ _ _ "listened_at");
      [|next_chars|reflexivity|next_chars
       |apply (parse_value_number _ _ (to_uint64 (date r))); next_chars
       |next_chars].
    erewrite (parse_members_last _ _ _ "track_metadata");
      [|next_chars|reflexivity|next_chars
      |erewrite parse_value_object; [|next_chars|next_chars];
       erewrite (parse_members_more _ _ _ "artist_name");
       [|next_chars|reflexivity|next_chars
        |apply (parse_value_string _ _ artist); [next_chars|exact Hpa]
        |next_chars];
       erewrite (parse_members_more _ _ _ "track_name");
       [|next_chars|reflexivity|next_chars
        |apply (parse_value_string _ _ title); [next_chars|exact Hpt]
        |next_chars];
       erewrite (parse_members_more _ _ _ "release_name");
       [|next_chars|reflexivity|next_chars
        |apply (parse_value_string _ _ album); [next_chars|exact Hpal]
        |next_chars];
       eapply (parse_members_last _ _ _ "additional_info");
       [next_chars|reflexivity|next_chars
       |erewrite parse_value_object; [|next_chars|next_chars];
        eapply (parse_members_last _ _ _ "recording_mbid");
        [next_chars|reflexivity|next_chars
        |apply (parse_value_string _ _ recording_id);
         [next_chars|exact Hpid]
        |next_chars]
       |next_chars]
      |next_chars].
    reflexivity.
Qed.

(** The reader on the text of a record that has no album: after the comma
    that follows the title no member comes. *)
Lemma parse_value_song_no_album : forall f r rest,
  plain_record r ->
  EMPTY_STR (psz_album r) = true ->
  Json.parse_value (11 + f)
    (list_ascii_of_string (PreparePayload_song EmptyString r) ++ rest)
  = Json.SyntaxError.
Proof.
  intros f r rest (Hpa & Hpt & _ & _) Halbum. cbn [Nat.add].
  remember (fmt_s (psz_artist r)) as artist.
  remember (fmt_s (psz_title r)) as title.
  remember (fmt_s (psz_musicbrainz_recording_id r)) as recording_id.
  unfold PreparePayload_song.
  rewrite <- Heqartist, <- Heqtitle, <- Heqrecording_id, Halbum.
  cbn [negb].
  destruct (EMPTY_STR (psz_musicbrainz_recording_id r)); cbn [negb app];
    spell_out;
    (erewrite parse_value_object; [|next_chars|next_chars];
     erewrite (parse_members_more _ _ _ "listened_at");
     [|next_chars|reflexivity|next_chars
      |apply (parse_value_number _ _ (to_uint64 (date r))); next_chars
      |next_chars];
     eapply (parse_members_error _ _ _ "track_metadata");
     [next_chars|reflexivity|next_chars|];
     erewrite parse_value_object; [|next_chars|next_chars];
     erewrite (parse_members_more _ _ _ "artist_name");
     [|next_chars|reflexivity|next_chars
      |apply (parse_value_string _ _ artist); [next_chars|exact Hpa]
      |next_chars];
     erewrite (parse_members_more _ _ _ "track_name");
     [|next_chars|reflexivity|next_chars
      |apply (parse_value_string _ _ title); [next_chars|exact Hpt]
      |next_chars];
     reflexivity).
Qed.

(** The reader on a payload, given what it makes of the elements. *)
Lemma parse_payload_elements : forall f listen_type body body' v,
  plain_text listen_type = true ->
  Json.skip_ws body = "{"%char :: body' ->
  Json.parse_elements f body [] = Json.Parsed v ["}"%char] ->
  Json.parse_value (4 + f)
    (list_ascii_of_string (payload_opening listen_type) ++ body)
  = Json.Parsed
      (Json.Object [("listen_type"%string, Json.Str listen_type);
                    ("payload"%string, v)])
      [].
Proof.
  intros f listen_type body body' v Hp Hb Hv. cbn [Nat.add]. spell_out.
  erewrite parse_value_object; [|next_chars|next_chars].
  erewrite (parse_members_more _ _ _ "listen_type");
    [|next_chars|reflexivity|next_chars
     |apply (parse_value_string _ _ listen_type); [next_chars|exact Hp]
     |next_chars].
  erewrite (parse_members_last _ _ _ "payload");
    [|next_chars|reflexivity|next_chars
     |erewrite parse_value_array; [exact Hv|next_chars|exact Hb]
     |next_chars].
  reflexivity.
Qed.

Lemma parse_payload_error : forall f listen_type body body',
  plain_text listen_type = true ->
  Json.skip_ws body = "{"%char :: body' ->
  Json.parse_elements f body [] = Json.SyntaxError ->
  Json.parse_value (4 + f)
    (list_ascii_of_string (payload_opening listen_type) ++ body)
  = Json.SyntaxError.
Proof.
  intros f listen_type body body' Hp Hb Hv. cbn [Nat.add]. spell_out.
  erewrite parse_value_object; [|next_chars|next_chars].
  erewrite (parse_members_more _ _ _ "listen_type");
    [|next_chars|reflexivity|next_chars
     |apply (parse_value_string _ _ listen_type); [next_chars|exact Hp]
     |next_chars].
  eapply (parse_members_error _ _ _ "payload");
    [next_chars|reflexivity|next_chars
    |erewrite parse_value_array; [exact Hv|next_chars|exact Hb]].
Qed.
Lemma concat_songs_chars : forall q,
  list_ascii_of_string
    (String.concat EmptyString (map (PreparePayload_song EmptyString) q))
  = flat_map
      (fun r => list_ascii_of_string (PreparePayload_song EmptyString r)) q.
Proof.
  induction q as [|r q IH]; [reflexivity|].
  cbn [map flat_map]. rewrite <- IH.
  destruct q as [|r' q]; cbn [map String.concat].
  - cbn. rewrite app_nil_r. reflexivity.
  - rewrite list_ascii_of_string_app. reflexivity.
Qed.

(** The characters of the payload: the opening, the texts of the records
    one after the other, the closing bracket and brace. *)
Lemma payload_chars : forall p_sys,
  exists payload,
    PreparePayload true p_sys = Some payload
    /\ list_ascii_of_string payload
       = list_ascii_of_string
           (payload_opening
              (if (List.length (queue p_sys) =? 1)%nat
               then "single" else "import"))
           ++ flat_map
                (fun r =>
                   list_ascii_of_string (PreparePayload_song EmptyString r))
                (queue p_sys)
           ++ ["]"%char; "}"%char].
Proof.
  intros p_sys. rewrite PreparePayload_text. eexists.
  split; [reflexivity|].
  rewrite !list_ascii_of_string_app, concat_songs_chars.
  destruct (List.length (queue p_sys) =? 1)%nat; reflexivity.
Qed.

(** The fuel that [Json.parse] gives the reader is enough for a payload. *)
Lemma payload_fuel : forall listen_type (body : list ascii),
  exists f,
    (2 * List.length
           (list_ascii_of_string (payload_opening listen_type) ++ body)
     + 2)%nat
    = (4 + S (11 + f))%nat.
Proof.
  intros listen_type body.
  exists (2 * List.length
                (list_ascii_of_string (payload_opening listen_type) ++ body)
          + 2 - 16)%nat.
  assert (H : (7 <= List.length
                      (list_ascii_of_string (payload_opening listen_type)
                         ++ body))%nat).
  { rewrite List.length_app. unfold payload_opening, Q.
    cbn [String.append list_ascii_of_string List.length]. lia. }
  lia.
Qed.

(** X14.  A queue of one record that has an album, the strings printed
    being plain (no double quote, no backslash, no control character): the
    payload is a JSON text, an object whose [listen_type] is [single] and
    whose [payload] is an array of one object; that object has the
    [listened_at] number and the [track_metadata] object with the artist,
    the title and the album as they are in the record, and
    [additional_info] with the recording id exactly when the recording id
    is not empty. *)
Theorem single_record_payload_is_json : forall p_sys r,
  queue p_sys = [r] ->
  plain_record r ->
  EMPTY_STR (psz_album r) = false ->
  exists payload,
    PreparePayload true p_sys = Some payload
    /\ Json.parse payload
       = Json.Parsed
           (Json.Object
              [("listen_type"%string, Json.Str "single");
               ("payload"%string,
                Json.Array
                  [listen_value (date r) (fmt_s (psz_artist r))
                                (fmt_s (psz_title r)) (fmt_s (psz_album r))
                                (psz_musicbrainz_recording_id r)])])
           [].
Proof.
  intros p_sys r Hq Hplain Halbum.
  destruct (payload_chars p_sys) as (payload & Hp & Hchars).
  exists payload. split; [exact Hp|].
  unfold Json.parse. rewrite Hchars, Hq.
  cbn [List.length Nat.eqb flat_map]. rewrite app_nil_r.
  destruct (payload_fuel "single"
              (list_ascii_of_string (PreparePayload_song EmptyString r)
                 ++ ["]"%char; "}"%char])) as (f & ->).
  destruct (song_text_head r) as (tl & Hhead).
  erewrite parse_payload_elements; [reflexivity|reflexivity| |].
  - rewrite Hhead. reflexivity.
  - erewrite parse_elements_last;
      [reflexivity
      |apply (parse_value_song f r); assumption
      |reflexivity].
Qed.

(** X15.  A queue whose first record has no album, or which holds two
    records or more, the strings printed being plain: the payload is not a
    JSON text.  Without an album a comma and the closing brace follow the
    title; between two records no comma is written. *)
Theorem payload_not_json : forall p_sys payload r q,
  PreparePayload true p_sys = Some payload ->
  queue p_sys = r :: q ->
  plain_record r ->
  (EMPTY_STR (psz_album r) = true \/ q <> []) ->
  Json.parse payload = Json.SyntaxError.
Proof.
  intros p_sys payload r q Hpay Hq Hplain Hbad.
  destruct (payload_chars p_sys) as (payload' & Hp & Hchars).
  rewrite Hp in Hpay. injection Hpay as <-.
  unfold Json.parse. rewrite Hchars, Hq.
  cbn [flat_map]. rewrite <- app_assoc.
  match goal with
  | |- context [payload_opening ?k] => set (listen_type := k)
  end.
  assert (Hk : plain_text listen_type = true)
    by (subst listen_type;
      destruct (List.length (r :: q) =? 1)%nat; reflexivity).
  match goal with
  | |- context [list_ascii_of_string (payload_opening listen_type)
                  ++ ?b] =>
      destruct (payload_fuel listen_type b) as (f & ->)
  end.
  destruct (song_text_head r) as (tl & Hhead).
  erewrite parse_payload_error;
    [reflexivity|exact Hk|rewrite Hhead; reflexivity|].
  destruct (EMPTY_STR (psz_album r)) eqn:Halbum.
  - apply parse_elements_error.
    apply (parse_value_song_no_album f r); assumption.
  - destruct Hbad as [Hbad|Hbad]; [discriminate|].
    destruct q as [|r' q]; [contradiction|].
    destruct (song_text_head r') as (tl' & Hhead').
    eapply parse_elements_no_comma.
    + apply (parse_value_song f r); assumption.
    + cbn [flat_map]. rewrite Hhead'. reflexivity.
Qed.


End Listenbrainz.

(** ** The properties at concrete inputs *)

(** Scenario A of the specification: artist X, title Y, 45 seconds played;
    the record is queued. *)
Lemma Enqueue_queues_iff_eligible_witness :
  sentinel_ok listening_45s
  /\ eligible listening_45s
  /\ exists r, queue (Enqueue listening_45s) = queue listening_45s ++ [r].
Proof.
  assert (Hs : sentinel_ok listening_45s).
  { unfold sentinel_ok. simpl. intros H. discriminate H. }
  assert (He : eligible listening_45s).
  { unfold eligible. simpl. repeat split. lia. }
  split; [exact Hs|]. split; [exact He|].
  exact (proj1 (proj1 (Enqueue_queues_iff_eligible listening_45s Hs)) He).
Defined.

(** The metadata of an item with an artist and a title, no album artist. *)
Lemma ReadMetaData_captures_witness :
  p_current_song (plugin_with_queue []) = zero_listen
  /\ p_current_song
       (ReadMetaData plain_encode plain_decode (plugin_with_queue [])
                     (Some plain_item) 1600000000)
     = mk_listen (Some "X"%string) (Some "Y"%string) None None None
                 200 1600000000.
Proof.
  split; [reflexivity|].
  exact (proj2 (ReadMetaData_captures plain_encode plain_decode
                  (plugin_with_queue []) plain_item 1600000000 eq_refl)
               "X"%string "Y"%string eq_refl eq_refl).
Defined.

(** Pausing and resuming does not read the metadata again. *)
Lemma meta_read_flag_blocks_repopulation_witness :
  Forall keeps_flag pause_and_resume
  /\ p_current_song
       (handle_events plain_encode plain_decode pause_and_resume
          (ReadMetaData plain_encode plain_decode (plugin_with_queue [])
                        (Some plain_item) 1600000000))
     = p_current_song
         (ReadMetaData plain_encode plain_decode (plugin_with_queue [])
                       (Some plain_item) 1600000000).
Proof.
  assert (H : Forall keeps_flag pause_and_resume).
  { unfold pause_and_resume.
    repeat constructor; simpl; intros E; discriminate E. }
  split; [exact H|].
  exact (proj1 (proj2 (proj2 (proj2
           (meta_read_flag_blocks_repopulation plain_encode plain_decode
              (plugin_with_queue []) plain_item 1600000000
              pause_and_resume H))))).
Defined.

(** The metadata are read, the player stops and plays again: the second
    signal of the playing state reads the metadata again, though the current
    media did not change. *)
Lemma stopped_signal_reopens_population :
  Forall no_media_change stop_signal
  /\ ~ playing_signal_ignored plain_encode plain_decode
         (plugin_with_queue []) plain_item 1600000000 stop_signal
         1600000200.
Proof.
  split.
  - unfold stop_signal. repeat constructor.
  - unfold playing_signal_ignored. vm_compute. intros E. discriminate E.
Qed.

(** One record with an album in the queue: the payload says [single]. *)
Lemma listen_type_single_iff_one_record_witness :
  PreparePayload true (plugin_with_queue [listen_with_album])
  = Some (listen_type_single ++ text_with_album ++ "]}")%string
  /\ String.prefix listen_type_single
       (listen_type_single ++ text_with_album ++ "]}") = true.
Proof.
  assert (H : PreparePayload true (plugin_with_queue [listen_with_album])
              = Some (listen_type_single ++ text_with_album ++ "]}")%string).
  { vm_compute. reflexivity. }
  split; [exact H|].
  exact (proj2 (proj1 (listen_type_single_iff_one_record true
                         (plugin_with_queue [listen_with_album]) _ H))
               eq_refl).
Defined.

(** A response whose status line holds 200. *)
Lemma SendRequest_success_iff_200_witness :
  List.length zeroed_stack = 1024%nat
  /\ SendRequest (mk_tls true 15 (Some response_200)) zeroed_stack
                 EmptyString
     = Returns VLC_SUCCESS.
Proof.
  assert (Hlen : List.length zeroed_stack = 1024%nat) by reflexivity.
  split; [exact Hlen|].
  refine (proj2 (proj1 (proj2 (SendRequest_success_iff_200
            (mk_tls true 15 (Some response_200)) zeroed_stack EmptyString
            Hlen) response_200 eq_refl _ eq_refl _ _)) _).
  - simpl. intros E. discriminate E.
  - vm_compute. repeat (try (left; reflexivity); right).
  - vm_compute. intros H.
    repeat (destruct H as [H|H]; [discriminate H|]). exact H.
  - exists (list_byte_of_string "HTTP/1.1 "),
           (list_byte_of_string " OK" ++ [x0d]).
    vm_compute. reflexivity.
Defined.

(** A listen is queued, the request is out and the server cannot be
    reached: the structure is left as it is. *)
Lemma queue_cleared_iff_submission_succeeded_witness :
  reachable plain_encode plain_decode "vlc" "4.0"
            (request_out plain_encode plain_decode "vlc" "4.0")
  /\ sys (system_step plain_encode plain_decode "vlc" "4.0"
            (ActWorker unreachable_server)
            (request_out plain_encode plain_decode "vlc" "4.0"))
     = sys (request_out plain_encode plain_decode "vlc" "4.0").
Proof.
  assert (Hreach : reachable plain_encode plain_decode "vlc" "4.0"
                     (request_out plain_encode plain_decode "vlc" "4.0")).
  { unfold request_out, one_listen_played, run. cbn [fold_left].
    repeat (apply reach_step;
            [| simpl; try exact I; intros E; discriminate E]).
    apply (reach_open _ _ _ _ (Some "token"%string)
             (mk_url "api.listenbrainz.org" "/1/submit-listens")).
    reflexivity. }
  split; [exact Hreach|].
  refine (proj2 (proj1 (queue_cleared_iff_submission_succeeded
            plain_encode plain_decode "vlc" "4.0" _ Hreach)
            (request_of (request_out plain_encode plain_decode "vlc" "4.0"))
            unreachable_server VLC_EGENERIC _ _) _).
  - vm_compute. reflexivity.
  - reflexivity.
  - intros E. discriminate E.
Defined.

(** In the backoff, a timer callback and a signalled return of the wait
    leave the thread waiting for the same deadline. *)
Lemma backoff_ends_on_timeout_or_shutdown_only_witness :
  pc in_backoff = PcTimedWait 65000000
  /\ live (sys in_backoff) = true
  /\ Forall signal_or_push [ActEvent (EvTimerUpdate 1); ActWorker signalled]
  /\ pc (run plain_encode plain_decode "vlc" "4.0"
           [ActEvent (EvTimerUpdate 1); ActWorker signalled] in_backoff)
     = PcTimedWait 65000000.
Proof.
  assert (Hall : Forall signal_or_push
                   [ActEvent (EvTimerUpdate 1); ActWorker signalled]).
  { repeat constructor; simpl; try reflexivity. intros E. discriminate E. }
  split; [reflexivity|]. split; [reflexivity|]. split; [exact Hall|].
  exact (proj1 (proj2 (proj2 (backoff_ends_on_timeout_or_shutdown_only
           plain_encode plain_decode "vlc" "4.0" in_backoff signalled)
           65000000 eq_refl) _ eq_refl Hall)).
Defined.

(** Scenario E of the specification: [Close] during the backoff. *)
Lemma shutdown_during_wait_exits_witness :
  (pc in_backoff = PcWait
   \/ exists deadline, pc in_backoff = PcTimedWait deadline)
  /\ pc (run plain_encode plain_decode "vlc" "4.0"
           (map ActEvent ([] ++ EvClose :: []) ++ [ActWorker signalled])
           in_backoff)
     = PcExited.
Proof.
  assert (H : pc in_backoff = PcWait
              \/ exists deadline, pc in_backoff = PcTimedWait deadline).
  { right. exists 65000000. reflexivity. }
  split; [exact H|].
  exact (proj1 (shutdown_during_wait_exits plain_encode plain_decode
                  "vlc" "4.0" in_backoff [] [] signalled H)).
Defined.

(** Scenario C of the specification: three records are out and the server
    answers 200; the queue is emptied and the thread waits for work, with
    no backoff. *)
Example three_records_submitted :
  let s := mk_system
             (plugin_with_queue
                [listen_with_album; listen_with_album; listen_with_album])
             (PcSend "request") ["request"%string] in
  let i := mk_input 0 5000000 true true
                    (mk_tls true 7 (Some response_200)) zeroed_stack in
  let s' := system_step plain_encode plain_decode "vlc" "4.0"
                        (ActWorker i) s in
  queue (sys s') = [] /\ pc s' = PcWait /\ attempts s' = attempts s.
Proof. vm_compute. repeat split. Qed.

(** Scenario D of the specification: the server answers 401; the three
    records stay in the queue and the thread waits for 60 seconds. *)
Example three_records_refused :
  let s := mk_system
             (plugin_with_queue
                [listen_with_album; listen_with_album; listen_with_album])
             (PcSend "request") ["request"%string] in
  let i := mk_input 0 5000000 true true
                    (mk_tls true 7
                       (Some (list_byte_of_string "HTTP/1.1 401 UNAUTHORIZED"
                                ++ [x0d; x0a])))
                    zeroed_stack in
  let s' := system_step plain_encode plain_decode "vlc" "4.0"
                        (ActWorker i) s in
  sys s' = sys s /\ pc s' = PcTimedWait 65000000
  /\ attempts s' = attempts s.
Proof. vm_compute. repeat split. Qed.

(** Scenario B of the specification: an empty artist and no album artist;
    nothing is captured and nothing is queued when the track ends. *)
Example empty_artist_discarded :
  let item := mk_item None (Some EmptyString) (Some "Y"%string)
                      None None None 200000000 true in
  let evs := [EvCurrentMediaChanged (Some item) 0 1600000000;
              EvTimerUpdate 45000001;
              EvPlayerStateChanged 0 VLC_PLAYER_STATE_STOPPED (Some item)
                                   1600000045] in
  let p_sys := handle_events plain_encode plain_decode evs
                             (plugin_with_queue []) in
  queue p_sys = [] /\ p_current_song p_sys = zero_listen.
Proof. vm_compute. repeat split. Qed.

(** ** Further properties at concrete inputs *)

(** A listen was played and its request is out. *)
Lemma request_out_reachable :
  reachable plain_encode plain_decode "vlc" "4.0"
            (request_out plain_encode plain_decode "vlc" "4.0").
Proof.
  unfold request_out, one_listen_played, run. cbn [fold_left].
  do 4 (apply reach_step;
        [| simpl; try exact I; intros E; discriminate E]).
  apply (reach_open _ _ _ _ (Some "token"%string)
           (mk_url "api.listenbrainz.org" "/1/submit-listens")).
  reflexivity.
Defined.

(** C2, at a record pushed while a retry is out.  One track is played and
    stopped; the server cannot be reached; after the 60 seconds of the
    backoff the thread builds the request again, from the one record of the
    queue, and releases the lock; a second track is played and stopped, and
    its record is pushed behind the first; then the server answers 200.
    The queue is emptied, the second record with it, and neither of the two
    requests that went out carried the second record: both are the request
    of the first record alone, and the title of the second is in
    neither. *)
Theorem pushed_record_deleted_unsent :
  reachable plain_encode plain_decode "vlc" "4.0"
            (retry_in_flight plain_encode plain_decode "vlc" "4.0")
  /\ (exists request,
        request_for "vlc" "4.0"
          (sys (retry_in_flight plain_encode plain_decode "vlc" "4.0"))
          [first_record]
        = Some request
        /\ pc (retry_in_flight plain_encode plain_decode "vlc" "4.0")
           = PcSend request
        /\ attempts (retry_in_flight plain_encode plain_decode "vlc" "4.0")
           = [request; request])
  /\ queue (sys (retry_in_flight plain_encode plain_decode "vlc" "4.0"))
     = [first_record; second_record]
  /\ queue (sys (system_step plain_encode plain_decode "vlc" "4.0"
                   (ActWorker server_accepts)
                   (retry_in_flight plain_encode plain_decode "vlc" "4.0")))
     = []
  /\ attempts (system_step plain_encode plain_decode "vlc" "4.0"
                 (ActWorker server_accepts)
                 (retry_in_flight plain_encode plain_decode "vlc" "4.0"))
     = attempts (retry_in_flight plain_encode plain_decode "vlc" "4.0")
  /\ Forall (fun request => String.index 0 "Other" request = None)
            (attempts
               (system_step plain_encode plain_decode "vlc" "4.0"
                  (ActWorker server_accepts)
                  (retry_in_flight plain_encode plain_decode "vlc" "4.0"))).
Proof.
  split.
  { unfold retry_in_flight, retry_out_and_push, run. cbn [fold_left].
    do 9 (apply reach_step;
          [| simpl; try exact I; intros E; discriminate E]).
    apply (reach_open _ _ _ _ (Some "token"%string)
             (mk_url "api.listenbrainz.org" "/1/submit-listens")).
    reflexivity. }
  split.
  { eexists. split; [vm_compute; reflexivity|].
    split; vm_compute; reflexivity. }
  split; [vm_compute; reflexivity|].
  split; [vm_compute; reflexivity|].
  split; [vm_compute; reflexivity|].
  vm_compute. repeat constructor.
Qed.

(** A second listen was played while the request of the first is out. *)
Lemma request_out_and_push_reachable :
  reachable plain_encode plain_decode "vlc" "4.0"
            (request_out_and_push plain_encode plain_decode "vlc" "4.0").
Proof.
  unfold request_out_and_push, second_listen_played, run. cbn [fold_left].
  do 3 (apply reach_step;
        [| simpl; try exact I; intros E; discriminate E]).
  exact request_out_reachable.
Defined.

(** The two records queued with a request out are complete. *)
Lemma queued_records_complete_witness :
  reachable plain_encode plain_decode "vlc" "4.0"
            (request_out_and_push plain_encode plain_decode "vlc" "4.0")
  /\ Forall queued_ok
       (queue (sys (request_out_and_push plain_encode plain_decode
                      "vlc" "4.0"))).
Proof.
  split; [exact request_out_and_push_reachable|].
  exact (queued_records_complete plain_encode plain_decode "vlc" "4.0" _
           request_out_and_push_reachable).
Defined.

(** A track played for 45 seconds with a video track: nothing is queued. *)
Lemma video_is_not_captured_witness :
  p_current_song (plugin_with_queue []) = zero_listen
  /\ Forall video_event
       [EvCurrentMediaChanged (Some plain_item) 1 1600000000;
        EvTimerUpdate 45000001;
        EvPlayerStateChanged 1 VLC_PLAYER_STATE_STOPPED (Some plain_item)
                             1600000045]
  /\ queue (handle_events plain_encode plain_decode
              [EvCurrentMediaChanged (Some plain_item) 1 1600000000;
               EvTimerUpdate 45000001;
               EvPlayerStateChanged 1 VLC_PLAYER_STATE_STOPPED
                                    (Some plain_item) 1600000045]
              (plugin_with_queue []))
     = queue (plugin_with_queue []).
Proof.
  assert (Hall : Forall video_event
            [EvCurrentMediaChanged (Some plain_item) 1 1600000000;
             EvTimerUpdate 45000001;
             EvPlayerStateChanged 1 VLC_PLAYER_STATE_STOPPED (Some plain_item)
                                  1600000045]).
  { repeat constructor; simpl; intros E; discriminate E. }
  split; [reflexivity|]. split; [exact Hall|].
  exact (proj1 (video_is_not_captured plain_encode plain_decode _
                  (plugin_with_queue []) eq_refl Hall)).
Defined.

(** The player stops after 45 seconds of a track with artist X and title
    Y: one record is pushed, the configuration and the liveness flag are
    as they were. *)
Lemma player_callbacks_only_append_witness :
  EvPlayerStateChanged 0 VLC_PLAYER_STATE_STOPPED None 1600000045
  <> EvClose
  /\ List.length
       (queue (handle_event plain_encode plain_decode
                 (EvPlayerStateChanged 0 VLC_PLAYER_STATE_STOPPED None
                                       1600000045)
                 listening_45s))
     = S (List.length (queue listening_45s))
  /\ live (handle_event plain_encode plain_decode
             (EvPlayerStateChanged 0 VLC_PLAYER_STATE_STOPPED None
                                   1600000045)
             listening_45s)
     = live listening_45s.
Proof.
  assert (Hne : EvPlayerStateChanged 0 VLC_PLAYER_STATE_STOPPED None
                                     1600000045
                <> EvClose)
    by (intros E; discriminate E).
  split; [exact Hne|]. split; [vm_compute; reflexivity|].
  exact (proj2 (proj2 (proj2
           (player_callbacks_only_append plain_encode plain_decode
              (EvPlayerStateChanged 0 VLC_PLAYER_STATE_STOPPED None
                                    1600000045)
              listening_45s Hne)))).
Defined.

(** A response of one line that does not end in a line feed. *)
Lemma SendRequest_null_dereference_iff_witness :
  List.length zeroed_stack = 1024%nat
  /\ SendRequest (mk_tls true 15 (Some response_without_line_feed))
                 zeroed_stack EmptyString
     = NullDereference.
Proof.
  assert (Hlen : List.length zeroed_stack = 1024%nat) by reflexivity.
  split; [exact Hlen|].
  refine (proj2 (SendRequest_null_dereference_iff
                   (mk_tls true 15 (Some response_without_line_feed))
                   zeroed_stack EmptyString Hlen) _).
  split; [reflexivity|]. split; [intros E; discriminate E|].
  exists response_without_line_feed.
  split; [reflexivity|]. split.
  - vm_compute. intros E. discriminate E.
  - vm_compute. intros H.
    repeat (destruct H as [H|H]; [discriminate H|]). exact H.
Defined.

(** The request of the first listen is out, a second listen was queued,
    and the server answers 200: both records leave the queue. *)
Lemma in_flight_request_snapshot_witness :
  reachable plain_encode plain_decode "vlc" "4.0"
            (request_out_and_push plain_encode plain_decode "vlc" "4.0")
  /\ pc (request_out_and_push plain_encode plain_decode "vlc" "4.0")
     = PcSend (request_of (request_out plain_encode plain_decode
                             "vlc" "4.0"))
  /\ List.length
       (queue (sys (request_out_and_push plain_encode plain_decode
                      "vlc" "4.0")))
     = 2%nat
  /\ queue (sys (system_step plain_encode plain_decode "vlc" "4.0"
                   (ActWorker server_accepts)
                   (request_out_and_push plain_encode plain_decode
                      "vlc" "4.0")))
     = [].
Proof.
  assert (Hpc : pc (request_out_and_push plain_encode plain_decode
                      "vlc" "4.0")
                = PcSend (request_of (request_out plain_encode plain_decode
                                        "vlc" "4.0")))
    by (vm_compute; reflexivity).
  split; [exact request_out_and_push_reachable|].
  split; [exact Hpc|]. split; [vm_compute; reflexivity|].
  destruct (in_flight_request_snapshot plain_encode plain_decode
              "vlc" "4.0" _ _ request_out_and_push_reachable Hpc)
    as (snapshot & pushed & _ & _ & _ & Hsend).
  refine (proj1 (Hsend server_accepts _)).
  vm_compute. reflexivity.
Defined.

(** The server could not be reached and the 60 seconds are over. *)
Lemma backoff_timeout_resubmits_queue_witness :
  reachable plain_encode plain_decode "vlc" "4.0"
    (system_step plain_encode plain_decode "vlc" "4.0"
       (ActWorker unreachable_server)
       (request_out plain_encode plain_decode "vlc" "4.0"))
  /\ pc (system_step plain_encode plain_decode "vlc" "4.0"
           (ActWorker unreachable_server)
           (request_out plain_encode plain_decode "vlc" "4.0"))
     = PcTimedWait 65000000
  /\ in_ret timed_out <> 0
  /\ exists request,
       pc (system_step plain_encode plain_decode "vlc" "4.0"
             (ActWorker timed_out)
             (system_step plain_encode plain_decode "vlc" "4.0"
                (ActWorker unreachable_server)
                (request_out plain_encode plain_decode "vlc" "4.0")))
       = PcSend request.
Proof.
  assert (Hreach : reachable plain_encode plain_decode "vlc" "4.0"
            (system_step plain_encode plain_decode "vlc" "4.0"
               (ActWorker unreachable_server)
               (request_out plain_encode plain_decode "vlc" "4.0"))).
  { apply reach_step; [exact request_out_reachable | exact I]. }
  assert (Hpc : pc (system_step plain_encode plain_decode "vlc" "4.0"
                      (ActWorker unreachable_server)
                      (request_out plain_encode plain_decode "vlc" "4.0"))
                = PcTimedWait 65000000)
    by (vm_compute; reflexivity).
  assert (Hret : in_ret timed_out <> 0) by (simpl; intros E; discriminate E).
  split; [exact Hreach|]. split; [exact Hpc|]. split; [exact Hret|].
  destruct (backoff_timeout_resubmits_queue plain_encode plain_decode
              "vlc" "4.0" _ 65000000 timed_out Hreach Hpc eq_refl Hret
              eq_refl eq_refl) as (request & _ & Hstep).
  exists request. rewrite Hstep. reflexivity.
Defined.

(** The thread is woken with one record in the queue and the memory stream
    of the payload fails; the player goes on and the thread is woken
    again. *)
Lemma build_failure_ends_thread_witness :
  pc work_arrived = PcWait
  /\ live (sys work_arrived) = true
  /\ queue (sys work_arrived) <> []
  /\ in_payload_ok out_of_memory = false
  /\ attempts
       (run plain_encode plain_decode "vlc" "4.0"
          (second_listen_played ++ [ActWorker server_accepts])
          (system_step plain_encode plain_decode "vlc" "4.0"
             (ActWorker out_of_memory) work_arrived))
     = [].
Proof.
  assert (Hne : queue (sys work_arrived) <> [])
    by (simpl; intros E; discriminate E).
  split; [reflexivity|]. split; [reflexivity|]. split; [exact Hne|].
  split; [reflexivity|].
  exact (proj2 (proj2 (proj2
           (build_failure_ends_thread plain_encode plain_decode "vlc" "4.0"
              work_arrived out_of_memory eq_refl eq_refl Hne
              (or_introl eq_refl)))
           (second_listen_played ++ [ActWorker server_accepts]))).
Defined.


(** One record with an album: the payload is a JSON text. *)
Lemma single_record_payload_is_json_witness :
  queue (plugin_with_queue [listen_with_album]) = [listen_with_album]
  /\ plain_record listen_with_album
  /\ EMPTY_STR (psz_album listen_with_album) = false
  /\ exists payload,
       PreparePayload true (plugin_with_queue [listen_with_album])
       = Some payload
       /\ Json.parse payload
          = Json.Parsed
              (Json.Object
                 [("listen_type"%string, Json.Str "single");
                  ("payload"%string,
                   Json.Array
                     [listen_value 1600000000 "X" "Y" "A" None])])
              [].
Proof.
  assert (Hplain : plain_record listen_with_album)
    by (repeat split; reflexivity).
  split; [reflexivity|]. split; [exact Hplain|]. split; [reflexivity|].
  exact (single_record_payload_is_json
           (plugin_with_queue [listen_with_album]) listen_with_album
           eq_refl Hplain eq_refl).
Defined.

(** One record without an album: the payload is not a JSON text. *)
Lemma payload_not_json_witness :
  PreparePayload true (plugin_with_queue [listen_without_album])
  = Some (listen_type_single ++ text_without_album ++ "]}")%string
  /\ plain_record listen_without_album
  /\ EMPTY_STR (psz_album listen_without_album) = true
  /\ Json.parse (listen_type_single ++ text_without_album ++ "]}")
     = Json.SyntaxError.
Proof.
  assert (Hpay : PreparePayload true
                   (plugin_with_queue [listen_without_album])
                 = Some (listen_type_single ++ text_without_album ++ "]}")
                     %string)
    by (vm_compute; reflexivity).
  assert (Hplain : plain_record listen_without_album)
    by (repeat split; reflexivity).
  split; [exact Hpay|]. split; [exact Hplain|]. split; [reflexivity|].
  exact (payload_not_json (plugin_with_queue [listen_without_album]) _
           listen_without_album [] Hpay eq_refl Hplain (or_introl eq_refl)).
Defined.
